(** * pyodrx.geometry: plan-view geometry of a road

    A shallow embedding of [src/pyodrx/geometry.py]: the four segment classes
    ([Line], [Spiral], [Arc], [ParamPoly3]), the [EulerSpiral] solver, the
    [_Geometry] wrapper and the [PlanView] orchestrator.

    Numbers.  Python floats are idealised as real numbers ([R]); rounding,
    overflow, NaN and signed zeros are outside that model.  [numpy] and [scipy]
    functions are modelled by the mathematical functions they approximate.
    Properties that rounding breaks are decided on a second model, [B64]:
    [Line], [Arc], [_Geometry] and [PlanView] once more, in binary64.

    Objects.  The segment objects are mutable and shared by reference
    ([Arc.get_end_data] and [ParamPoly3.get_end_data] write derived fields back
    onto [self]), so they live in an object store and the plan view holds
    references into it.

    Errors.  A Python exception is a [Raise]; the state reached when it is
    raised is kept, as in Python. *)

From Stdlib Require Import Reals Lra Lia List String Arith Bool Epsilon.
From Stdlib Require Floats.
Import ListNotations.
Open Scope R_scope.

(** ** Python values and exceptions *)

Inductive PyError : Type :=
| ValueError (msg : string)
| TypeError
| IndexError
| ZeroDivisionError
| NoSuchObject. (* a reference outside the object store; Python has no such case *)

Inductive result (A : Type) : Type :=
| Ok (a : A)
| Raise (e : PyError).
Arguments Ok {A} a.
Arguments Raise {A} e.

(** A value that may be [None] (a keyword argument with default [None], or a
    field not set yet). *)
Definition value := option R.

(** Python truthiness of a number or [None]: [None] and zero are false. *)
Definition truthy (v : value) : bool :=
  match v with
  | Some r => if Req_dec_T r 0 then false else true
  | None => false
  end.

(** ** A state and exception monad *)

Definition M (S A : Type) : Type := S -> result A * S.

Definition ret {S A} (a : A) : M S A := fun s => (Ok a, s).
Definition raise {S A} (e : PyError) : M S A := fun s => (Raise e, s).
Definition bind {S A B} (m : M S A) (k : A -> M S B) : M S B :=
  fun s => match m s with
           | (Ok a, s') => k a s'
           | (Raise e, s') => (Raise e, s')
           end.
Definition get {S} : M S S := fun s => (Ok s, s).
Definition modify {S} (f : S -> S) : M S unit := fun s => (Ok tt, f s).

Notation "x <- m ;; k" := (bind m (fun x => k))
  (at level 61, m at next level, right associativity).
Notation "' pat <- m ;; k" := (bind m (fun x => match x with pat => k end))
  (at level 61, pat pattern, m at next level, right associativity).
Notation "m ;; k" := (bind m (fun _ => k))
  (at level 61, right associativity).

(** Using a possibly-[None] value as a number: arithmetic on [None] raises
    [TypeError]. *)
Definition num {S} (v : value) : M S R :=
  match v with
  | Some r => ret r
  | None => raise TypeError
  end.

(** [lst[i]] *)
Definition index {S A} (lst : list A) (i : nat) : M S A :=
  match nth_error lst i with
  | Some a => ret a
  | None => raise IndexError
  end.

(** [for i in idxs: body(i)] *)
Fixpoint for_each {S} (idxs : list nat) (body : nat -> M S unit) : M S unit :=
  match idxs with
  | [] => ret tt
  | i :: rest => body i ;; for_each rest body
  end.

(** ** numpy and scipy *)

(** Complex numbers, as far as [EulerSpiral.calc] uses them. *)
Module Cplx.
Definition t : Type := R * R.
Definition real (z : t) : R := fst z.
Definition imag (z : t) : R := snd z.
Definition add (z w : t) : t := (real z + real w, imag z + imag w).
Definition sub (z w : t) : t := (real z - real w, imag z - imag w).
Definition mul (z w : t) : t :=
  (real z * real w - imag z * imag w, real z * imag w + imag z * real w).
(** [r * z] and [z / r] for a real [r] *)
Definition scale (r : R) (z : t) : t := (r * real z, r * imag z).
Definition divr (z : t) (r : R) : t := (real z / r, imag z / r).
Definition of_real (r : R) : t := (r, 0).
(** [1j * r] *)
Definition j (r : R) : t := (0, r).
(** [np.exp(1j * theta)] *)
Definition expj (theta : R) : t := (cos theta, sin theta).
End Cplx.

Module np.
Definition pi : R := PI.
Definition abs : R -> R := Rabs.
Definition sqrt : R -> R := R_sqrt.sqrt.
Definition cos : R -> R := Rtrigo_def.cos.
Definition sin : R -> R := Rtrigo_def.sin.

Definition sign (r : R) : R :=
  if Rlt_dec r 0 then -1 else if Rlt_dec 0 r then 1 else 0.

(** [np.arctan2(y, x)]: the angle of the point [(x, y)], in (-pi, pi]. *)
Definition arctan2 (y x : R) : R :=
  if Rlt_dec 0 x then atan (y / x)
  else if Rlt_dec x 0 then
         if Rle_dec 0 y then atan (y / x) + PI else atan (y / x) - PI
  else if Rlt_dec 0 y then PI / 2
  else if Rlt_dec y 0 then - (PI / 2)
  else 0.
End np.

(** The definite integral of [f] from [a] to [b] (the Riemann integral where
    [f] is integrable). *)
Definition integral (f : R -> R) (a b : R) : R :=
  epsilon (inhabits 0)
    (fun v => exists pr : Riemann_integrable f a b, RiemannInt pr = v).

(** [scipy.integrate.quad(f, a, b)] returns the integral and an estimate of
    the absolute error. *)
Definition quad (f : R -> R) (a b : R) : R * R := (integral f a b, 0).

(** [scipy.special.fresnel(z)] returns [(S(z), C(z))]. *)
Definition fresnel (z : R) : R * R :=
  (integral (fun t => sin (PI * t ^ 2 / 2)) 0 z,
   integral (fun t => cos (PI * t ^ 2 / 2)) 0 z).

(** ** xml.etree.ElementTree *)

(** An element: its tag, its attributes in insertion order, its children. *)
#[warnings="-register-all"]
Inductive XmlElement : Type :=
| mkElement (tag : string) (attrib : list (string * string))
    (children : list XmlElement).

Module ET.
(** [ET.Element(tag, attrib=attrib)] *)
Definition Element (tag : string) (attrib : list (string * string))
  : XmlElement := mkElement tag attrib [].

(** [element.append(child)] *)
Definition append (element child : XmlElement) : XmlElement :=
  match element with
  | mkElement tag attrib children => mkElement tag attrib (children ++ [child])
  end.

Definition tag (element : XmlElement) : string :=
  match element with mkElement t _ _ => t end.
Definition attrib (element : XmlElement) : list (string * string) :=
  match element with mkElement _ a _ => a end.
Definition children (element : XmlElement) : list XmlElement :=
  match element with mkElement _ _ c => c end.
End ET.

(** Python's [str] on a number or [None] is not modelled: the methods that
    write attributes take it as their first argument. *)
Definition py_str : Type := value -> string.

(** ** Segment classes *)

(** What [get_end_data] returns: [(x, y, h, length)]; the length is the
    segment's [length] field, which can still be [None]. *)
Definition EndData : Type := R * R * R * value.

Module Line.
Record t : Type := { length : R }.

Definition __init__ (length : R) : result t := Ok {| length := length |}.

Definition get_end_data (x y h : R) : M t EndData :=
  self <- get ;;
  let new_x := length self * np.cos h + x in
  let new_y := length self * np.sin h + y in
  let new_h := h in
  ret (new_x, new_y, new_h, Some (length self)).

Definition get_element (self : t) : XmlElement := ET.Element "line" [].
End Line.

Module EulerSpiral.
Record t : Type := { _gamma : R }.

Definition createFromLengthAndCurvature (length curvStart curvEnd : R)
  : result t :=
  if Req_dec_T length 0 then Raise ZeroDivisionError
  else Ok {| _gamma := 1 * (curvEnd - curvStart) / length |}.

Definition calc (self : t) (s x0 y0 kappa0 theta0 : R) : R * R * R :=
  let C0 := Cplx.add (Cplx.of_real x0) (Cplx.j y0) in
  let Cs :=
    if Req_dec_T (_gamma self) 0 then
      if Req_dec_T kappa0 0 then
        (* Straight line *)
        Cplx.add C0 (Cplx.scale s (Cplx.expj theta0))
      else
        (* Arc *)
        Cplx.add C0
          (Cplx.mul (Cplx.divr (Cplx.expj theta0) kappa0)
             (Cplx.add (Cplx.of_real (np.sin (kappa0 * s)))
                (Cplx.j (1 - np.cos (kappa0 * s)))))
    else
      (* Fresnel integrals *)
      let '(Sa, Ca) :=
        fresnel ((kappa0 + _gamma self * s)
                 / np.sqrt (np.pi * np.abs (_gamma self))) in
      let '(Sb, Cb) :=
        fresnel (kappa0 / np.sqrt (np.pi * np.abs (_gamma self))) in
      (* Euler Spiral *)
      let Cs1 :=
        Cplx.scale (np.sqrt (np.pi / np.abs (_gamma self)))
          (Cplx.expj (theta0 - kappa0 ^ 2 / 2 / _gamma self)) in
      let Cs2 :=
        Cplx.sub
          (Cplx.add (Cplx.of_real (np.sign (_gamma self) * (Ca - Cb)))
             (Cplx.j Sa))
          (Cplx.j Sb) in
      Cplx.add C0 (Cplx.mul Cs1 Cs2) in
  (* Tangent at each point *)
  let theta := _gamma self * s ^ 2 / 2 + kappa0 * s + theta0 in
  (Cplx.real Cs, Cplx.imag Cs, theta).
End EulerSpiral.

Module Spiral.
Record t : Type := { curvstart : R; curvend : R; length : R }.

Definition __init__ (curvstart curvend length : R) : result t :=
  Ok {| curvstart := curvstart; curvend := curvend; length := length |}.

Definition get_end_data (x y h : R) : M t EndData :=
  self <- get ;;
  match EulerSpiral.createFromLengthAndCurvature
          (length self) (curvstart self) (curvend self) with
  | Raise e => raise e
  | Ok spiral =>
      let '(deltax, deltay, t) :=
        EulerSpiral.calc spiral (length self) x y (curvstart self) h in
      ret (deltax, deltay, t, Some (length self))
  end.

Definition get_attributes (str : py_str) (self : t) : list (string * string) :=
  [("curvStart"%string, str (Some (curvstart self)));
   ("curvEnd"%string, str (Some (curvend self)))].

Definition get_element (str : py_str) (self : t) : XmlElement :=
  ET.Element "spiral" (get_attributes str self).
End Spiral.

Module Arc.
Record t : Type := { length : value; angle : value; curvature : R }.

Definition set_length (v : value) (self : t) : t :=
  {| length := v; angle := angle self; curvature := curvature self |}.
Definition set_angle (v : value) (self : t) : t :=
  {| length := length self; angle := v; curvature := curvature self |}.

Definition __init__ (curvature : R) (length angle : value) : result t :=
  match length, angle with
  | None, None =>
      Raise (ValueError "neither length nor angle defined, for arc")
  | Some _, Some _ =>
      Raise (ValueError "both length and angle set, only one is requiered")
  | _, _ =>
      if Req_dec_T curvature 0 then
        Raise (ValueError
                 "You are creating a straight line, please use Line instead")
      else Ok {| length := length; angle := angle; curvature := curvature |}
  end.

(** The locals [phi_0], [x_0], [y_0] of [get_end_data]: the centre
    [(x_0, y_0)] of the circle and the angle [phi_0] at which the start
    point is seen from it. *)
Definition circle (curvature x y h : R) : R * R * R :=
  let radius := 1 / np.abs curvature in
  if Rlt_dec curvature 0 then
    let phi_0 := h + np.pi / 2 in
    (phi_0, x - np.cos phi_0 * radius, y - np.sin phi_0 * radius)
  else
    let phi_0 := h - np.pi / 2 in
    (phi_0, x - np.cos phi_0 * radius, y - np.sin phi_0 * radius).

Definition get_end_data (x y h : R) : M t EndData :=
  self <- get ;;
  let radius := 1 / np.abs (curvature self) in
  let '(phi_0, x_0, y_0) := circle (curvature self) x y h in
  (if truthy (length self) then
     l <- num (length self) ;;
     modify (set_angle (Some (l * curvature self)))
   else ret tt) ;;
  self <- get ;;
  angle0 <- num (angle self) ;;
  let new_ang := angle0 + phi_0 in
  (if truthy (angle self) then
     modify (set_length (Some (np.abs (radius * angle0))))
   else ret tt) ;;
  self <- get ;;
  let new_h := h + angle0 in
  let new_x := np.cos new_ang * radius + x_0 in
  let new_y := np.sin new_ang * radius + y_0 in
  ret (new_x, new_y, new_h, length self).

Definition get_attributes (str : py_str) (self : t) : list (string * string) :=
  [("curvature"%string, str (Some (curvature self)))].

Definition get_element (str : py_str) (self : t) : XmlElement :=
  ET.Element "arc" (get_attributes str self).
End Arc.

Module ParamPoly3.
Record t : Type := {
  au : R; bu : R; cu : R; du : R;
  av : R; bv : R; cv : R; dv : R;
  prange : string;
  length : value
}.

Definition set_length (v : value) (self : t) : t :=
  {| au := au self; bu := bu self; cu := cu self; du := du self;
     av := av self; bv := bv self; cv := cv self; dv := dv self;
     prange := prange self; length := v |}.

Definition __init__ (au bu cu du av bv cv dv : R) (prange : string)
  (length : value) : result t :=
  match String.eqb prange "arcLength", length with
  | true, None =>
      Raise (ValueError "No length was provided for Arc with arcLength option")
  | _, _ =>
      Ok {| au := au; bu := bu; cu := cu; du := du;
            av := av; bv := bv; cv := cv; dv := dv;
            prange := prange; length := length |}
  end.

Definition _integrand (self : t) (p : R) : R :=
  np.sqrt
    ((bu self ^ 2 + bv self ^ 2)
     + 4 * (bu self * cu self + bv self * cv self) * p
     + 2 * (3 * bu self * du self + 2 * cu self ^ 2
            + 3 * bv self * dv self + 2 * cv self ^ 2) * p ^ 2
     + 12 * (cu self * du self + cv self * dv self) * p ^ 3
     + 9 * (du self ^ 2 + dv self ^ 2) * p ^ 4).

Definition get_end_data (x y h : R) : M t EndData :=
  self <- get ;;
  p <- (if String.eqb (prange self) "normalized" then
          let I := quad (_integrand self) 0 1 in
          modify (set_length (Some (fst I))) ;;
          ret 1
        else num (length self)) ;;
  self <- get ;;
  let newu := au self + bu self * p + cu self * p ^ 2 + du self * p ^ 3 in
  let newv := av self + bv self * p + cv self * p ^ 2 + dv self * p ^ 3 in
  let new_x := x + newu * np.cos h - np.sin h * newv in
  let new_y := y + newu * np.sin h + np.cos h * newv in
  let new_h :=
    h + np.arctan2 (bv self + cv self * p + dv self * p ^ 2)
                   (bu self + cu self * p + du self * p ^ 2) in
  ret (new_x, new_y, new_h, length self).

Definition get_attributes (str : py_str) (self : t) : list (string * string) :=
  [("aU"%string, str (Some (au self)));
   ("bU"%string, str (Some (bu self)));
   ("cU"%string, str (Some (cu self)));
   ("dU"%string, str (Some (du self)));
   ("aV"%string, str (Some (av self)));
   ("bV"%string, str (Some (bv self)));
   ("cV"%string, str (Some (cv self)));
   ("dV"%string, str (Some (dv self)));
   ("pRange"%string, prange self)].

Definition get_element (str : py_str) (self : t) : XmlElement :=
  ET.Element "paramPoly3" (get_attributes str self).
End ParamPoly3.


(** ** The object store *)

(** [geom_type (Line, Spiral, ParamPoly3, or Arc)] *)
Inductive geom_type : Type :=
| GLine (l : Line.t)
| GSpiral (s : Spiral.t)
| GArc (a : Arc.t)
| GParamPoly3 (p : ParamPoly3.t).

(** Running a method of one class on an object of the union. *)
Definition as_variant {T A} (inj : T -> geom_type) (m : M T A) (self : T)
  : result A * geom_type :=
  let '(r, self') := m self in (r, inj self').

(** [geom.get_end_data(x, y, h)], dispatched on the class of [geom]. *)
Definition get_end_data (x y h : R) : M geom_type EndData :=
  fun g =>
    match g with
    | GLine l => as_variant GLine (Line.get_end_data x y h) l
    | GSpiral s => as_variant GSpiral (Spiral.get_end_data x y h) s
    | GArc a => as_variant GArc (Arc.get_end_data x y h) a
    | GParamPoly3 p => as_variant GParamPoly3 (ParamPoly3.get_end_data x y h) p
    end.

(** Segment objects are held by reference. *)
Definition ref : Type := nat.
Definition store : Type := list geom_type.

Fixpoint update (sigma : store) (r : ref) (g : geom_type) : store :=
  match sigma, r with
  | [], _ => []
  | _ :: rest, O => g :: rest
  | g0 :: rest, S r' => g0 :: update rest r' g
  end.

(** Running a method on the object a reference points to. *)
Definition at_ref {A} (r : ref) (m : M geom_type A) : M store A :=
  fun sigma =>
    match nth_error sigma r with
    | Some g => let '(res, g') := m g in (res, update sigma r g')
    | None => (Raise NoSuchObject, sigma)
    end.

(** [geom.get_element()], dispatched on the class of [geom]. *)
Definition get_element (str : py_str) (g : geom_type) : XmlElement :=
  match g with
  | GLine l => Line.get_element l
  | GSpiral s => Spiral.get_element str s
  | GArc a => Arc.get_element str a
  | GParamPoly3 p => ParamPoly3.get_element str p
  end.

(** Reading the object a reference points to. *)
Definition read_ref {A} (r : ref) (f : geom_type -> A) : M store A :=
  fun sigma =>
    match nth_error sigma r with
    | Some g => (Ok (f g), sigma)
    | None => (Raise NoSuchObject, sigma)
    end.

(** ** _Geometry *)

Module _Geometry.
Record t : Type := {
  s : R;
  x : R;
  y : R;
  heading : R;
  geom_type : ref;
  length : value
}.

Definition __init__ (s x y heading : R) (geom_type : ref) : M store t :=
  '(_, _, _, length) <- at_ref geom_type (get_end_data x y heading) ;;
  ret {| s := s; x := x; y := y; heading := heading;
         geom_type := geom_type; length := length |}.

Definition get_end_data (self : t) : M store EndData :=
  at_ref (geom_type self) (get_end_data (x self) (y self) (heading self)).

Definition get_attributes (str : py_str) (self : t) : list (string * string) :=
  [("s"%string, str (Some (s self)));
   ("x"%string, str (Some (x self)));
   ("y"%string, str (Some (y self)));
   ("hdg"%string, str (Some (heading self)));
   ("length"%string, str (length self))].

Definition get_element (str : py_str) (self : t) : M store XmlElement :=
  let element := ET.Element "geometry" (get_attributes str self) in
  child <- read_ref (geom_type self) (get_element str) ;;
  ret (ET.append element child).
End _Geometry.

(** ** PlanView *)

Module PlanView.
Record t : Type := {
  present_x : R;
  present_y : R;
  present_h : R;
  present_s : R;
  _raw_geometries : list ref;
  _adjusted_geometries : list _Geometry.t;
  _overridden_headings : list R
}.

(** [__init__] ignores its arguments, as in the source. *)
Definition __init__ (x_start y_start h_start : R) : t :=
  {| present_x := 0; present_y := 0; present_h := 0; present_s := 0;
     _raw_geometries := [];
     _adjusted_geometries := [];
     _overridden_headings := [] |}.

Definition add_geometry (geom : ref) (heading : value) (self : t) : t :=
  {| present_x := present_x self; present_y := present_y self;
     present_h := present_h self; present_s := present_s self;
     _raw_geometries := _raw_geometries self ++ [geom];
     _adjusted_geometries := _adjusted_geometries self;
     _overridden_headings :=
       match heading with
       | Some hd => if truthy heading then _overridden_headings self ++ [hd]
                    else _overridden_headings self
       | None => _overridden_headings self
       end |}.

Definition set_start_point (x_start y_start h_start : R) (self : t) : t :=
  {| present_x := x_start; present_y := y_start; present_h := h_start;
     present_s := present_s self;
     _raw_geometries := _raw_geometries self;
     _adjusted_geometries := _adjusted_geometries self;
     _overridden_headings := _overridden_headings self |}.

Definition set_present_h (hd : R) (self : t) : t :=
  {| present_x := present_x self; present_y := present_y self;
     present_h := hd; present_s := present_s self;
     _raw_geometries := _raw_geometries self;
     _adjusted_geometries := _adjusted_geometries self;
     _overridden_headings := _overridden_headings self |}.

Definition set_present_pose (x y h : R) (self : t) : t :=
  {| present_x := x; present_y := y; present_h := h;
     present_s := present_s self;
     _raw_geometries := _raw_geometries self;
     _adjusted_geometries := _adjusted_geometries self;
     _overridden_headings := _overridden_headings self |}.

Definition set_present_s (s : R) (self : t) : t :=
  {| present_x := present_x self; present_y := present_y self;
     present_h := present_h self; present_s := s;
     _raw_geometries := _raw_geometries self;
     _adjusted_geometries := _adjusted_geometries self;
     _overridden_headings := _overridden_headings self |}.

Definition append_adjusted (g : _Geometry.t) (self : t) : t :=
  {| present_x := present_x self; present_y := present_y self;
     present_h := present_h self; present_s := present_s self;
     _raw_geometries := _raw_geometries self;
     _adjusted_geometries := _adjusted_geometries self ++ [g];
     _overridden_headings := _overridden_headings self |}.

(** The state [adjust_geometires] runs in: the object store and [self]. *)
Definition world : Type := store * t.

Definition self_ : M world t := fun w => (Ok (snd w), w).
Definition on_self (f : t -> t) : M world unit :=
  fun w => (Ok tt, (fst w, f (snd w))).
Definition in_store {A} (m : M store A) : M world A :=
  fun w => let '(r, sigma') := m (fst w) in (r, (sigma', snd w)).

(** The body of the loop of [adjust_geometires], at index [i]. *)
Definition adjust_step (i : nat) : M world unit :=
  self <- self_ ;;
  (if (0 <? List.length (_overridden_headings self))%nat then
     hd <- index (_overridden_headings self) i ;;
     on_self (set_present_h hd)
   else ret tt) ;;
  self <- self_ ;;
  geom <- index (_raw_geometries self) i ;;
  newgeom <- in_store (_Geometry.__init__ (present_s self) (present_x self)
                         (present_y self) (present_h self) geom) ;;
  '(x', y', h', length) <- in_store (_Geometry.get_end_data newgeom) ;;
  on_self (set_present_pose x' y' h') ;;
  l <- num length ;;
  self <- self_ ;;
  on_self (set_present_s (present_s self + l)) ;;
  on_self (append_adjusted newgeom).

Definition adjust_geometires : M world unit :=
  self <- self_ ;;
  for_each (seq 0 (List.length (_raw_geometries self))) adjust_step.

Definition get_total_length (self : t) : R := present_s self.

(** [for geom in geoms: element.append(geom.get_element())] *)
Fixpoint append_elements (str : py_str) (element : XmlElement)
  (geoms : list _Geometry.t) : M store XmlElement :=
  match geoms with
  | [] => ret element
  | geom :: rest =>
      child <- _Geometry.get_element str geom ;;
      append_elements str (ET.append element child) rest
  end.

Definition get_element (str : py_str) : M world XmlElement :=
  self <- self_ ;;
  let element := ET.Element "planView" [] in
  in_store (append_elements str element (_adjusted_geometries self)).
End PlanView.

(** [sum(values)] over numbers that may be [None]. *)
Fixpoint py_sum (values : list value) (start : R) : result R :=
  match values with
  | [] => Ok start
  | Some v :: rest => py_sum rest (start + v)
  | None :: _ => Raise TypeError
  end.


(** * The arithmetic of the code in binary64

    The model above takes Python's floats as real numbers.  Where a property
    depends on rounding, it is decided on this second model: the classes
    [Line] and [Arc], [_Geometry] and the plan view over them, with the
    arithmetic of binary64 (primitive floats, rounding to nearest even, as
    Python's [float] and numpy's [float64]).  [np.cos] and [np.sin] are
    taken as parameters: no property below depends on their values. *)

Module B64.
Import PrimFloat.
Local Open Scope float_scope.

Definition value := option float.

(** Python truthiness of a float or [None]: [None], [0.0] and [-0.0] are
    false. *)
Definition truthy (v : value) : bool :=
  match v with
  | Some r => negb (r =? 0)
  | None => false
  end.

Definition num {S} (v : value) : M S float :=
  match v with
  | Some r => ret r
  | None => raise TypeError
  end.

(** [np.cos] and [np.sin] *)
Record numpy : Type := { cos : float -> float; sin : float -> float }.

(** [np.pi], the binary64 nearest to pi: 3.141592653589793 *)
Definition pi : float := 0x1.921fb54442d18p+1.

Definition EndData : Type := float * float * float * value.

Module Line.
Record t : Type := { length : float }.

Definition __init__ (length : float) : result t := Ok {| length := length |}.

Definition get_end_data (np : numpy) (x y h : float) : M t EndData :=
  self <- get ;;
  let new_x := length self * cos np h + x in
  let new_y := length self * sin np h + y in
  let new_h := h in
  ret (new_x, new_y, new_h, Some (length self)).
End Line.

Module Arc.
Record t : Type := { length : value; angle : value; curvature : float }.

Definition set_length (v : value) (self : t) : t :=
  {| length := v; angle := angle self; curvature := curvature self |}.
Definition set_angle (v : value) (self : t) : t :=
  {| length := length self; angle := v; curvature := curvature self |}.

Definition __init__ (curvature : float) (length angle : value) : result t :=
  match length, angle with
  | None, None =>
      Raise (ValueError "neither length nor angle defined, for arc")
  | Some _, Some _ =>
      Raise (ValueError "both length and angle set, only one is requiered")
  | _, _ =>
      if curvature =? 0 then
        Raise (ValueError
                 "You are creating a straight line, please use Line instead")
      else Ok {| length := length; angle := angle; curvature := curvature |}
  end.

Definition get_end_data (np : numpy) (x y h : float) : M t EndData :=
  self <- get ;;
  let radius := 1 / abs (curvature self) in
  let '(phi_0, x_0, y_0) :=
    if curvature self <? 0 then
      let phi_0 := h + pi / 2 in
      (phi_0, x - cos np phi_0 * radius, y - sin np phi_0 * radius)
    else
      let phi_0 := h - pi / 2 in
      (phi_0, x - cos np phi_0 * radius, y - sin np phi_0 * radius) in
  (if truthy (length self) then
     l <- num (length self) ;;
     modify (set_angle (Some (l * curvature self)))
   else ret tt) ;;
  self <- get ;;
  angle0 <- num (angle self) ;;
  let new_ang := angle0 + phi_0 in
  (if truthy (angle self) then
     modify (set_length (Some (abs (radius * angle0))))
   else ret tt) ;;
  self <- get ;;
  let new_h := h + angle0 in
  let new_x := cos np new_ang * radius + x_0 in
  let new_y := sin np new_ang * radius + y_0 in
  ret (new_x, new_y, new_h, length self).
End Arc.

Inductive geom_type : Type :=
| GLine (l : Line.t)
| GArc (a : Arc.t).

(** [geom.get_end_data(x, y, h)], dispatched on the class of [geom]. *)
Definition get_end_data (np : numpy) (x y h : float) : M geom_type EndData :=
  fun g =>
    match g with
    | GLine l =>
        let '(r, l') := Line.get_end_data np x y h l in (r, GLine l')
    | GArc a =>
        let '(r, a') := Arc.get_end_data np x y h a in (r, GArc a')
    end.

Definition store : Type := list geom_type.

Fixpoint update (sigma : store) (r : ref) (g : geom_type) : store :=
  match sigma, r with
  | [], _ => []
  | _ :: rest, O => g :: rest
  | g0 :: rest, S r' => g0 :: update rest r' g
  end.

Definition at_ref {A} (r : ref) (m : M geom_type A) : M store A :=
  fun sigma =>
    match nth_error sigma r with
    | Some g => let '(res, g') := m g in (res, update sigma r g')
    | None => (Raise NoSuchObject, sigma)
    end.

Module _Geometry.
Record t : Type := {
  s : float;
  x : float;
  y : float;
  heading : float;
  geom_type : ref;
  length : value
}.

Definition __init__ (np : numpy) (s x y heading : float) (geom_type : ref)
  : M store t :=
  '(_, _, _, length) <- at_ref geom_type (get_end_data np x y heading) ;;
  ret {| s := s; x := x; y := y; heading := heading;
         geom_type := geom_type; length := length |}.

Definition get_end_data (np : numpy) (self : t) : M store EndData :=
  at_ref (geom_type self) (get_end_data np (x self) (y self) (heading self)).
End _Geometry.

Module PlanView.
Record t : Type := {
  present_x : float;
  present_y : float;
  present_h : float;
  present_s : float;
  _raw_geometries : list ref;
  _adjusted_geometries : list _Geometry.t;
  _overridden_headings : list float
}.

Definition __init__ (x_start y_start h_start : float) : t :=
  {| present_x := 0; present_y := 0; present_h := 0; present_s := 0;
     _raw_geometries := [];
     _adjusted_geometries := [];
     _overridden_headings := [] |}.

Definition add_geometry (geom : ref) (heading : value) (self : t) : t :=
  {| present_x := present_x self; present_y := present_y self;
     present_h := present_h self; present_s := present_s self;
     _raw_geometries := _raw_geometries self ++ [geom];
     _adjusted_geometries := _adjusted_geometries self;
     _overridden_headings :=
       match heading with
       | Some hd => if truthy heading then _overridden_headings self ++ [hd]
                    else _overridden_headings self
       | None => _overridden_headings self
       end |}.

Definition set_present_h (hd : float) (self : t) : t :=
  {| present_x := present_x self; present_y := present_y self;
     present_h := hd; present_s := present_s self;
     _raw_geometries := _raw_geometries self;
     _adjusted_geometries := _adjusted_geometries self;
     _overridden_headings := _overridden_headings self |}.

Definition set_present_pose (x y h : float) (self : t) : t :=
  {| present_x := x; present_y := y; present_h := h;
     present_s := present_s self;
     _raw_geometries := _raw_geometries self;
     _adjusted_geometries := _adjusted_geometries self;
     _overridden_headings := _overridden_headings self |}.

Definition set_present_s (s : float) (self : t) : t :=
  {| present_x := present_x self; present_y := present_y self;
     present_h := present_h self; present_s := s;
     _raw_geometries := _raw_geometries self;
     _adjusted_geometries := _adjusted_geometries self;
     _overridden_headings := _overridden_headings self |}.

Definition append_adjusted (g : _Geometry.t) (self : t) : t :=
  {| present_x := present_x self; present_y := present_y self;
     present_h := present_h self; present_s := present_s self;
     _raw_geometries := _raw_geometries self;
     _adjusted_geometries := _adjusted_geometries self ++ [g];
     _overridden_headings := _overridden_headings self |}.

Definition world : Type := store * t.

Definition self_ : M world t := fun w => (Ok (snd w), w).
Definition on_self (f : t -> t) : M world unit :=
  fun w => (Ok tt, (fst w, f (snd w))).
Definition in_store {A} (m : M store A) : M world A :=
  fun w => let '(r, sigma') := m (fst w) in (r, (sigma', snd w)).

(** The body of the loop of [adjust_geometires], at index [i]. *)
Definition adjust_step (np : numpy) (i : nat) : M world unit :=
  self <- self_ ;;
  (if (0 <? List.length (_overridden_headings self))%nat then
     hd <- index (_overridden_headings self) i ;;
     on_self (set_present_h hd)
   else ret tt) ;;
  self <- self_ ;;
  geom <- index (_raw_geometries self) i ;;
  newgeom <- in_store (_Geometry.__init__ np (present_s self) (present_x self)
                         (present_y self) (present_h self) geom) ;;
  '(x', y', h', length) <- in_store (_Geometry.get_end_data np newgeom) ;;
  on_self (set_present_pose x' y' h') ;;
  l <- num length ;;
  self <- self_ ;;
  on_self (set_present_s (present_s self + l)) ;;
  on_self (append_adjusted newgeom).

Definition adjust_geometires (np : numpy) : M world unit :=
  self <- self_ ;;
  for_each (seq 0 (List.length (_raw_geometries self))) (adjust_step np).

Definition get_total_length (self : t) : float := present_s self.
End PlanView.
End B64.

(** * Specification vocabulary

    The definitions the properties below are stated and proved with. *)

(** ** Evaluation in closed form

    [get_end_data] is split into what it does to the object ([settle], which
    does not depend on the start pose) and what it returns ([end_data]);
    [get_end_data_eq] below relates the two to the code. *)

(** The sweep angle an evaluation of the arc uses: [length * curvature] when
    the length is truthy, the [angle] field otherwise. *)
Definition Arc_sweep (a : Arc.t) : value :=
  if truthy (Arc.length a) then
    match Arc.length a with
    | Some l => Some (l * Arc.curvature a)
    | None => None
    end
  else Arc.angle a.

(** The arc after an evaluation that used the sweep angle [theta]. *)
Definition Arc_after (a : Arc.t) (theta : R) : Arc.t :=
  {| Arc.length :=
       if truthy (Some theta)
       then Some (Rabs (1 / Rabs (Arc.curvature a) * theta))
       else Arc.length a;
     Arc.angle := Some theta;
     Arc.curvature := Arc.curvature a |}.

(** The ParamPoly3 after an evaluation. *)
Definition ParamPoly3_after (p : ParamPoly3.t) : ParamPoly3.t :=
  if String.eqb (ParamPoly3.prange p) "normalized"
  then ParamPoly3.set_length
         (Some (integral (ParamPoly3._integrand p) 0 1)) p
  else p.

(** The parameter [p] at which an evaluation takes the polynomials. *)
Definition ParamPoly3_p (p : ParamPoly3.t) : value :=
  if String.eqb (ParamPoly3.prange p) "normalized" then Some 1
  else ParamPoly3.length p.

(** The object after an evaluation, or the exception the evaluation
    raises. *)
Definition settle (g : geom_type) : result geom_type :=
  match g with
  | GLine _ => Ok g
  | GSpiral s =>
      if Req_dec_T (Spiral.length s) 0 then Raise ZeroDivisionError else Ok g
  | GArc a =>
      match Arc_sweep a with
      | Some theta => Ok (GArc (Arc_after a theta))
      | None => Raise TypeError
      end
  | GParamPoly3 p =>
      match ParamPoly3_p p with
      | Some _ => Ok (GParamPoly3 (ParamPoly3_after p))
      | None => Raise TypeError
      end
  end.

(** What an evaluation of [g] from the pose [(x, y, h)] returns, when it
    raises nothing. *)
Definition end_data (g : geom_type) (x y h : R) : EndData :=
  match g with
  | GLine l =>
      (Line.length l * cos h + x, Line.length l * sin h + y, h,
       Some (Line.length l))
  | GSpiral s =>
      let '(dx, dy, t) :=
        EulerSpiral.calc
          {| EulerSpiral._gamma :=
               1 * (Spiral.curvend s - Spiral.curvstart s) / Spiral.length s |}
          (Spiral.length s) x y (Spiral.curvstart s) h in
      (dx, dy, t, Some (Spiral.length s))
  | GArc a =>
      let theta := match Arc_sweep a with Some th => th | None => 0 end in
      let radius := 1 / Rabs (Arc.curvature a) in
      let '(phi_0, x_0, y_0) := Arc.circle (Arc.curvature a) x y h in
      (cos (theta + phi_0) * radius + x_0,
       sin (theta + phi_0) * radius + y_0,
       h + theta,
       Arc.length (Arc_after a theta))
  | GParamPoly3 p =>
      let q := match ParamPoly3_p p with Some q => q | None => 0 end in
      let newu := ParamPoly3.au p + ParamPoly3.bu p * q
                  + ParamPoly3.cu p * q ^ 2 + ParamPoly3.du p * q ^ 3 in
      let newv := ParamPoly3.av p + ParamPoly3.bv p * q
                  + ParamPoly3.cv p * q ^ 2 + ParamPoly3.dv p * q ^ 3 in
      (x + newu * cos h - sin h * newv,
       y + newu * sin h + cos h * newv,
       h + np.arctan2
             (ParamPoly3.bv p + ParamPoly3.cv p * q + ParamPoly3.dv p * q ^ 2)
             (ParamPoly3.bu p + ParamPoly3.cu p * q + ParamPoly3.du p * q ^ 2),
       ParamPoly3.length (ParamPoly3_after p))
  end.

(** An arc built by [Arc.__init__] has a curvature other than zero, and
    evaluation keeps the curvature. *)
Definition wf_geom (g : geom_type) : Prop :=
  match g with
  | GArc a => Arc.curvature a <> 0
  | _ => True
  end.

(** The sweep angle a second evaluation derives from the length the first
    one wrote. *)
Definition Arc_resweep (k theta : R) : R :=
  if Req_dec_T theta 0 then theta else Rabs (1 / Rabs k * theta) * k.

(** The length returned (fourth component of the result). *)
Definition length_of (d : EndData) : value := snd d.

(** An object on which evaluation changes nothing. *)
Definition settled (g : geom_type) : Prop := settle g = Ok g.

(** ** The loop of [adjust_geometires] *)

(** The heading a step starts from, or [None] where indexing the overrides
    is out of range. *)
Definition step_heading (self : PlanView.t) (i : nat) : option R :=
  if (0 <? List.length (PlanView._overridden_headings self))%nat
  then nth_error (PlanView._overridden_headings self) i
  else Some (PlanView.present_h self).

(** The geometry a step builds from the object [g0] at [r]. *)
Definition new_geometry (self : PlanView.t) (hd : R) (r : ref) (g0 : geom_type)
  : _Geometry.t :=
  {| _Geometry.s := PlanView.present_s self;
     _Geometry.x := PlanView.present_x self;
     _Geometry.y := PlanView.present_y self;
     _Geometry.heading := hd;
     _Geometry.geom_type := r;
     _Geometry.length :=
       length_of (end_data g0 (PlanView.present_x self)
                    (PlanView.present_y self) hd) |}.

(** A pose with its arc length. *)
Record pose4 : Type := { px : R; py : R; ph : R; ps : R }.

Definition start_of (G : _Geometry.t) : pose4 :=
  {| px := _Geometry.x G; py := _Geometry.y G;
     ph := _Geometry.heading G; ps := _Geometry.s G |}.

Definition present_of (self : PlanView.t) : pose4 :=
  {| px := PlanView.present_x self; py := PlanView.present_y self;
     ph := PlanView.present_h self; ps := PlanView.present_s self |}.

(** [G] ends where [next] starts: its object is settled, evaluating it from
    [G]'s start pose gives the position of [next] and [G]'s cached length,
    which leads from [G]'s start arc length to that of [next]; the end
    heading is that of [next] when headings are not overridden ([free]). *)
Definition link (sigma : store) (free : Prop) (G : _Geometry.t) (next : pose4)
  : Prop :=
  exists g he l,
    nth_error sigma (_Geometry.geom_type G) = Some g /\
    settled g /\
    end_data g (_Geometry.x G) (_Geometry.y G) (_Geometry.heading G)
    = (px next, py next, he, Some l) /\
    _Geometry.length G = Some l /\
    _Geometry.s G + l = ps next /\
    (free -> he = ph next).

(** A list of geometries in which each one ends where the next one starts,
    and the last one at [fin]. *)
Definition next_start (rest : list _Geometry.t) (fin : pose4) : pose4 :=
  match rest with
  | [] => fin
  | G' :: _ => start_of G'
  end.

Fixpoint linked (sigma : store) (free : Prop) (gs : list _Geometry.t)
  (fin : pose4) : Prop :=
  match gs with
  | [] => True
  | G :: rest => link sigma free G (next_start rest fin)
                 /\ linked sigma free rest fin
  end.

(** The arc length at which the chain starts. *)
Definition first_s (gs : list _Geometry.t) (fin : R) : R :=
  match gs with
  | [] => fin
  | G :: _ => _Geometry.s G
  end.

(** The invariant of the loop of [adjust_geometires], for the overrides
    [ovr0], the raw geometries [raw0], the geometries [old] adjusted before
    the loop and the arc length [s0] before the loop.  After [i] iterations
    [i] geometries were appended, for the raw geometries 0..i-1 in order,
    and they form a chain from [s0] to the present pose. *)
Record chain_inv (ovr0 : list R) (raw0 : list ref) (old : list _Geometry.t)
  (s0 : R) (i : nat) (w : PlanView.world) : Prop := {
  inv_ovr : PlanView._overridden_headings (snd w) = ovr0;
  inv_raw : PlanView._raw_geometries (snd w) = raw0;
  inv_wf : Forall wf_geom (fst w);
  inv_chain :
    exists gs,
      PlanView._adjusted_geometries (snd w) = old ++ gs /\
      List.length gs = i /\
      linked (fst w) (ovr0 = []) gs (present_of (snd w)) /\
      first_s gs (PlanView.present_s (snd w)) = s0 /\
      (forall j G, nth_error gs j = Some G ->
                   nth_error raw0 j = Some (_Geometry.geom_type G) /\
                   (ovr0 <> [] ->
                    nth_error ovr0 j = Some (_Geometry.heading G)))
}.

(** An object that can be evaluated: from every start pose [get_end_data]
    raises nothing and returns the same number as the length. *)
Definition evaluable (g : geom_type) : Prop :=
  wf_geom g /\
  exists l, forall x y h, exists x' y' h' g',
      get_end_data x y h g = (Ok (x', y', h', Some l), g').

(** Every raw geometry refers to an object that can be evaluated. *)
Definition raw_ready (sigma : store) (raw : list ref) : Prop :=
  forall r, In r raw -> exists g, nth_error sigma r = Some g /\ evaluable g.

(** The same, in closed form. *)
Definition can_settle (g : geom_type) : Prop :=
  wf_geom g /\
  exists g1 l, settle g = Ok g1 /\
               forall x y h, length_of (end_data g x y h) = Some l.

(** Every raw geometry refers to an object that can be evaluated, in closed
    form. *)
Definition raw_settles (sigma : store) (raw : list ref) : Prop :=
  forall r, In r raw -> exists g, nth_error sigma r = Some g /\ can_settle g.

(** ** Calls *)

(** A sequence of calls [add_geometry(geom, heading)]. *)
Definition add_all (calls : list (ref * value)) (self : PlanView.t)
  : PlanView.t :=
  fold_left (fun pv c => PlanView.add_geometry (fst c) (snd c) pv) calls self.

(** The same calls without the [heading] argument. *)
Definition without_heading (calls : list (ref * value)) : list (ref * value) :=
  map (fun c => (fst c, None)) calls.

(** A constructor call with its arguments. *)
Inductive ctor_call : Type :=
| NewLine (length : R)
| NewSpiral (curvstart curvend length : R)
| NewArc (curvature : R) (length angle : value)
| NewParamPoly3 (au bu cu du av bv cv dv : R) (prange : string)
    (length : value).

(** The object a constructor call builds, or the exception it raises. *)
Definition result_map {A B} (f : A -> B) (r : result A) : result B :=
  match r with
  | Ok a => Ok (f a)
  | Raise e => Raise e
  end.

Definition construct (c : ctor_call) : result geom_type :=
  match c with
  | NewLine length => result_map GLine (Line.__init__ length)
  | NewSpiral curvstart curvend length =>
      result_map GSpiral (Spiral.__init__ curvstart curvend length)
  | NewArc curvature length angle =>
      result_map GArc (Arc.__init__ curvature length angle)
  | NewParamPoly3 au bu cu du av bv cv dv prange length =>
      result_map GParamPoly3
        (ParamPoly3.__init__ au bu cu du av bv cv dv prange length)
  end.

(** The definitions the spec lists as invalid. *)
Definition invalid_definition (c : ctor_call) : Prop :=
  match c with
  | NewArc curvature length angle =>
      curvature = 0 \/
      (length = None /\ angle = None) \/
      (length <> None /\ angle <> None)
  | NewParamPoly3 _ _ _ _ _ _ _ _ prange length =>
      prange = "arcLength"%string /\ length = None
  | _ => False
  end.

(** ** The specification's formulas *)

(** The end heading as the spec states it: the start heading plus the angle
    of the tangent [(u'(p), v'(p))], with [u'(p) = bu + 2 cu p + 3 du p^2]
    and [v'(p) = bv + 2 cv p + 3 dv p^2]. *)
Definition spec_end_heading (self : ParamPoly3.t) (h p : R) : R :=
  h + np.arctan2
        (ParamPoly3.bv self + 2 * ParamPoly3.cv self * p
         + 3 * ParamPoly3.dv self * p ^ 2)
        (ParamPoly3.bu self + 2 * ParamPoly3.cu self * p
         + 3 * ParamPoly3.du self * p ^ 2).

(** [ParamPoly3(0, 1, 0, 0, 0, -1, 1, 0)]: u(p) = p, v(p) = -p + p^2. *)
Definition parabola : ParamPoly3.t :=
  {| ParamPoly3.au := 0; ParamPoly3.bu := 1;
     ParamPoly3.cu := 0; ParamPoly3.du := 0;
     ParamPoly3.av := 0; ParamPoly3.bv := -1;
     ParamPoly3.cv := 1; ParamPoly3.dv := 0;
     ParamPoly3.prange := "normalized";
     ParamPoly3.length := None |}.

(** The centre [(x_0, y_0)] out of [Arc.circle]. *)
Definition centre (c : R * R * R) : R * R := (snd (fst c), snd c).

(** The centre as the specification places it: from the start point in the direction of
    heading + 90 degrees for a negative curvature, of heading - 90 degrees
    for a positive one. *)
Definition spec_centre (curvature x y h : R) : R * R :=
  let radius := 1 / Rabs curvature in
  if Rlt_dec curvature 0
  then (x + radius * cos (h + PI / 2), y + radius * sin (h + PI / 2))
  else (x + radius * cos (h - PI / 2), y + radius * sin (h - PI / 2)).

(** The fields a segment is defined by, as opposed to the derived ones
    (an arc's [angle] and [length], a ParamPoly3's [length]). *)
Definition same_inputs (g g' : geom_type) : Prop :=
  match g, g' with
  | GLine l, GLine l' => l' = l
  | GSpiral s, GSpiral s' => s' = s
  | GArc a, GArc a' => Arc.curvature a' = Arc.curvature a
  | GParamPoly3 p, GParamPoly3 p' =>
      ParamPoly3.set_length (ParamPoly3.length p) p' = p
  | _, _ => False
  end.

(** An arc whose length is positive, or which has no length yet and a sweep
    angle of the sign of its curvature. *)
Definition sign_agree (g : geom_type) : Prop :=
  match g with
  | GArc a =>
      (exists l, Arc.length a = Some l /\ 0 < l) \/
      (truthy (Arc.length a) = false /\
       exists theta, Arc.angle a = Some theta
                     /\ 0 <= theta * Arc.curvature a)
  | _ => True
  end.

(** Two poses agree within [eps], component by component. *)
Definition pose_within (eps : R) (p q : R * R * R) : Prop :=
  Rabs (fst (fst p) - fst (fst q)) <= eps /\
  Rabs (snd (fst p) - snd (fst q)) <= eps /\
  Rabs (snd p - snd q) <= eps.

(** The end pose [(x, y, h)] out of the result of [get_end_data]. *)
Definition pose_of (d : EndData) : R * R * R := fst d.

(** ** Concrete inputs *)

(** [Line(5)] and [Arc(0.2, angle=pi/2)] *)
Definition road_store : store :=
  [GLine {| Line.length := 5 |};
   GArc {| Arc.length := None; Arc.angle := Some (PI / 2);
           Arc.curvature := 1 / 5 |}].

(** The plan view of the two, without heading overrides. *)
Definition road : PlanView.t :=
  PlanView.add_geometry 1%nat None
    (PlanView.add_geometry 0%nat None (PlanView.__init__ 0 0 0)).


(** [Arc(1, angle=-1)] *)
Definition backward_arc : Arc.t :=
  {| Arc.length := None; Arc.angle := Some (-1); Arc.curvature := 1 |}.

(** [Arc(-1, length=1)]: a right turn. *)
Definition right_turn : Arc.t :=
  {| Arc.length := Some 1; Arc.angle := None; Arc.curvature := -1 |}.

(** [Arc(1, length=2)] *)
Definition left_turn : Arc.t :=
  {| Arc.length := Some 2; Arc.angle := None; Arc.curvature := 1 |}.

(** Two lines of length 1 with the heading overrides 1 and 2. *)
Definition line_store : store :=
  [GLine {| Line.length := 1 |}; GLine {| Line.length := 1 |}].

(** [add_geometry(Line(1), 1)] and [add_geometry(Line(1), 2)] *)
Definition turning_road : PlanView.t :=
  PlanView.add_geometry 1%nat (Some 2)
    (PlanView.add_geometry 0%nat (Some 1) (PlanView.__init__ 0 0 0)).

(** [ParamPoly3(1, 3, 0, 0, 2, 4, 0, 0)]: the straight segment
    u(p) = 1 + 3p, v(p) = 2 + 4p. *)
Definition straight_poly : ParamPoly3.t :=
  {| ParamPoly3.au := 1; ParamPoly3.bu := 3;
     ParamPoly3.cu := 0; ParamPoly3.du := 0;
     ParamPoly3.av := 2; ParamPoly3.bv := 4;
     ParamPoly3.cv := 0; ParamPoly3.dv := 0;
     ParamPoly3.prange := "normalized";
     ParamPoly3.length := None |}.

(** [Spiral(0, 1/10, 10)] *)
Definition clothoid : Spiral.t :=
  {| Spiral.curvstart := 0; Spiral.curvend := 1 / 10; Spiral.length := 10 |}.

(** ** Heading overrides *)

(** The headings a sequence of calls of [add_geometry] passes that are
    truthy, in the order of the calls. *)
Definition recorded_headings (calls : list (ref * value)) : list R :=
  flat_map (fun c => match snd c with
                     | Some hd => if truthy (Some hd) then [hd] else []
                     | None => []
                     end) calls.

(** [add_geometry(Line(5))] and [add_geometry(Arc(0.2, angle=pi/2), 1)]: a
    heading is passed with the second segment only. *)
Definition late_override : list (ref * value) :=
  [(0%nat, None); (1%nat, Some 1)].

(** ** Serialization *)

(** The "geometry" element of an adjusted geometry whose object is in the
    store: the attributes of the geometry and, as the only child, the
    element of the object. *)
Definition geometry_element (str : py_str) (sigma : store) (G : _Geometry.t)
  : XmlElement :=
  mkElement "geometry" (_Geometry.get_attributes str G)
    (match nth_error sigma (_Geometry.geom_type G) with
     | Some g => [get_element str g]
     | None => []
     end).

(** A stand-in for [str] that prints every number as "0". *)
Definition zero_str : py_str := fun _ => "0"%string.

(** ** Re-evaluation *)

(** A segment that is not an arc: a Line, a Spiral or a ParamPoly3. *)
Definition not_arc (g : geom_type) : Prop :=
  match g with
  | GArc _ => False
  | _ => True
  end.

(** What an evaluation of [g] that returned [d] wrote onto the object, which
    is [g'] afterwards.  A Line and a Spiral are not written to.  An Arc
    gets the angle [theta] the evaluation used ([length * curvature] if it
    had a truthy length, else the angle it had) and, if [theta] is truthy,
    the length [|1 / |curvature| * theta|]; a ParamPoly3 in normalized mode
    gets the integral of [_integrand] as its length.  The length returned is
    the length on the object afterwards. *)
Definition written_back (g g' : geom_type) (d : EndData) : Prop :=
  match g, g' with
  | GLine _, _ | GSpiral _, _ => g' = g
  | GArc a, GArc a' =>
      exists theta,
        Arc.angle a' = Some theta /\
        (if truthy (Arc.length a)
         then exists l, Arc.length a = Some l /\ theta = l * Arc.curvature a
         else Arc.angle a = Some theta) /\
        Arc.length a'
        = (if truthy (Some theta)
           then Some (Rabs (1 / Rabs (Arc.curvature a) * theta))
           else Arc.length a) /\
        length_of d = Arc.length a'
  | GParamPoly3 p, GParamPoly3 p' =>
      ParamPoly3.length p'
      = (if String.eqb (ParamPoly3.prange p) "normalized"
         then Some (integral (ParamPoly3._integrand p) 0 1)
         else ParamPoly3.length p) /\
      length_of d = ParamPoly3.length p'
  | _, _ => False
  end.

(** ** Inputs on which rounding shows *)

Module Drift.
Import PrimFloat.
Local Open Scope float_scope.

(** [Arc(0.7, length=7.7)] *)
#[warnings="-inexact-float"]
Definition arc : B64.Arc.t :=
  {| B64.Arc.length := Some 7.7; B64.Arc.angle := None;
     B64.Arc.curvature := 0.7 |}.

(** [Arc(0.03, length=12.9)] *)
#[warnings="-inexact-float"]
Definition wide_arc : B64.Arc.t :=
  {| B64.Arc.length := Some 12.9; B64.Arc.angle := None;
     B64.Arc.curvature := 0.03 |}.

(** The arc [a] and [Line(1)] *)
Definition store (a : B64.Arc.t) : B64.store :=
  [B64.GArc a; B64.GLine {| B64.Line.length := 1 |}].

(** [add_geometry] of the two on a new plan view. *)
Definition road : B64.PlanView.t :=
  B64.PlanView.add_geometry 1%nat None
    (B64.PlanView.add_geometry 0%nat None (B64.PlanView.__init__ 0 0 0)).

(** The plan view and the store after [adjust_geometires], and what it
    returned. *)
Definition finalized (np : B64.numpy) (a : B64.Arc.t) : B64.PlanView.world :=
  snd (B64.PlanView.adjust_geometires np (store a, road)).
Definition outcome (np : B64.numpy) (a : B64.Arc.t) : result unit :=
  fst (B64.PlanView.adjust_geometires np (store a, road)).

(** The heading and the length out of a result of [get_end_data]. *)
Definition heading_length (r : result B64.EndData) : option (float * B64.value) :=
  match r with
  | Ok (_, _, h, l) => Some (h, l)
  | Raise _ => None
  end.
End Drift.

(** ** Start poses *)

(** A result of [get_end_data] obtained from the pose (0, 0, 0), moved to the
    start pose [(x, y, h)]: the position is turned by [h] and shifted by
    [(x, y)], the heading is increased by [h], the length is kept. *)
Definition moved_to (x y h : R) (d0 : EndData) : EndData :=
  let '(u, v, dh, l) := d0 in
  (x + (u * cos h - v * sin h), y + (u * sin h + v * cos h), h + dh, l).

(** * Properties *)

(** ** Evaluation of one segment, in closed form *)

Arguments EulerSpiral.calc : simpl never.
Arguments Arc.circle : simpl never.
Arguments np.arctan2 : simpl never.

Ltac run_monad :=
  unfold bind, get, modify, ret, raise, num, as_variant in *; cbn in *.

Lemma Arc_get_end_data_eq (x y h : R) (a : Arc.t) :
  Arc.get_end_data x y h a =
  match Arc_sweep a with
  | Some theta => (Ok (end_data (GArc a) x y h), Arc_after a theta)
  | None => (Raise TypeError, a)
  end.
Proof.
  unfold Arc.get_end_data, end_data, Arc_sweep, Arc_after.
  destruct a as [len ang k]; run_monad.
  destruct (Arc.circle k x y h) as [[phi_0 x_0] y_0].
  destruct len as [l|]; cbn.
  - destruct (Req_dec_T l 0) as [Hl|Hl]; cbn.
    + destruct ang as [th|]; cbn; [|reflexivity].
      destruct (Req_dec_T th 0); reflexivity.
    + destruct (Req_dec_T (l * k) 0); reflexivity.
  - destruct ang as [th|]; cbn; [|reflexivity].
    destruct (Req_dec_T th 0); reflexivity.
Qed.

Lemma ParamPoly3_get_end_data_eq (x y h : R) (p : ParamPoly3.t) :
  ParamPoly3.get_end_data x y h p =
  match ParamPoly3_p p with
  | Some _ => (Ok (end_data (GParamPoly3 p) x y h), ParamPoly3_after p)
  | None => (Raise TypeError, p)
  end.
Proof.
  unfold ParamPoly3.get_end_data, end_data, ParamPoly3_p, ParamPoly3_after.
  run_monad.
  destruct (String.eqb (ParamPoly3.prange p) "normalized"); cbn.
  - reflexivity.
  - destruct (ParamPoly3.length p) eqn:E; run_monad; rewrite ?E; reflexivity.
Qed.

Lemma get_end_data_eq (x y h : R) (g : geom_type) :
  get_end_data x y h g =
  match settle g with
  | Ok g' => (Ok (end_data g x y h), g')
  | Raise e => (Raise e, g)
  end.
Proof.
  destruct g as [l|s|a|p]; unfold get_end_data, as_variant.
  - reflexivity.
  - unfold Spiral.get_end_data, settle, end_data,
      EulerSpiral.createFromLengthAndCurvature; run_monad.
    destruct (Req_dec_T (Spiral.length s) 0); cbn; [reflexivity|].
    destruct (EulerSpiral.calc _ _ x y _ h) as [[dx dy] t]; reflexivity.
  - rewrite Arc_get_end_data_eq; unfold settle.
    destruct (Arc_sweep a); reflexivity.
  - rewrite ParamPoly3_get_end_data_eq; unfold settle.
    destruct (ParamPoly3_p p); reflexivity.
Qed.

(** ** An object settles after two evaluations *)

Lemma Rabs_radius (k t : R) :
  k <> 0 -> Rabs (1 / Rabs k * (Rabs (1 / Rabs k * t) * k)) = Rabs (1 / Rabs k * t).
Proof.
  intros Hk.
  assert (Hak : Rabs k <> 0) by (apply Rabs_no_R0; exact Hk).
  assert (Hr : 0 < 1 / Rabs k).
  { apply Rdiv_lt_0_compat; [lra | apply Rabs_pos_lt; exact Hk]. }
  rewrite (Rabs_mult (1 / Rabs k) (_ * k)).
  rewrite (Rabs_mult _ k), Rabs_Rabsolu.
  rewrite (Rabs_right (1 / Rabs k)) by lra.
  field. exact Hak.
Qed.

Lemma radius_sweep_nonzero (k t : R) :
  k <> 0 -> t <> 0 -> Rabs (1 / Rabs k * t) <> 0.
Proof.
  intros Hk Ht. apply Rabs_no_R0.
  assert (Hak : Rabs k <> 0) by (apply Rabs_no_R0; exact Hk).
  intros H. apply Ht.
  apply Rmult_integral in H as [H|H]; [|exact H].
  exfalso. unfold Rdiv in H. rewrite Rmult_1_l in H.
  exact (Rinv_neq_0_compat _ Hak H).
Qed.

Lemma truthy_Some (r : R) : truthy (Some r) = true <-> r <> 0.
Proof.
  unfold truthy. destruct (Req_dec_T r 0); split; intros; congruence.
Qed.

Lemma truthy_Some_false (r : R) : truthy (Some r) = false <-> r = 0.
Proof.
  unfold truthy. destruct (Req_dec_T r 0); split; intros; congruence.
Qed.

Lemma Arc_sweep_after (a : Arc.t) (theta : R) :
  Arc.curvature a <> 0 ->
  Arc_sweep a = Some theta ->
  Arc_sweep (Arc_after a theta) = Some (Arc_resweep (Arc.curvature a) theta).
Proof.
  intros Hk Hs. unfold Arc_sweep, Arc_after, Arc_resweep in *. cbn.
  destruct (Req_dec_T theta 0) as [H0|H0]; cbn.
  - destruct (Arc.length a) as [l|] eqn:El; cbn in *.
    + destruct (Req_dec_T l 0) as [Hl|Hl]; [reflexivity|].
      injection Hs as Hs. exfalso.
      rewrite H0 in Hs. apply Rmult_integral in Hs as [?|?]; contradiction.
    + reflexivity.
  - destruct (Req_dec_T (Rabs (1 / Rabs (Arc.curvature a) * theta)) 0) as [H|H].
    + exfalso. exact (radius_sweep_nonzero _ _ Hk H0 H).
    + reflexivity.
Qed.

Lemma Arc_resweep_nonzero (k theta : R) :
  k <> 0 -> theta <> 0 -> Arc_resweep k theta <> 0.
Proof.
  intros Hk Ht. unfold Arc_resweep.
  destruct (Req_dec_T theta 0); [contradiction|].
  intros H. apply Rmult_integral in H as [H|H]; [|contradiction].
  exact (radius_sweep_nonzero _ _ Hk Ht H).
Qed.

Lemma Arc_after_length (a : Arc.t) (theta : R) :
  Arc.curvature a <> 0 ->
  Arc.length (Arc_after (Arc_after a theta) (Arc_resweep (Arc.curvature a) theta))
  = Arc.length (Arc_after a theta).
Proof.
  intros Hk. unfold Arc_after, Arc_resweep; cbn.
  destruct (Req_dec_T theta 0) as [H0|H0]; cbn.
  - destruct (Req_dec_T theta 0); [reflexivity|contradiction].
  - destruct (Req_dec_T _ 0) as [H|H].
    + exfalso. apply Rmult_integral in H as [H|H]; [|contradiction].
      exact (radius_sweep_nonzero _ _ Hk H0 H).
    + f_equal. apply Rabs_radius. exact Hk.
Qed.

Lemma Arc_resweep_idem (k theta : R) :
  k <> 0 -> Arc_resweep k (Arc_resweep k theta) = Arc_resweep k theta.
Proof.
  intros Hk. unfold Arc_resweep.
  destruct (Req_dec_T theta 0) as [H0|H0].
  - destruct (Req_dec_T theta 0); [reflexivity|contradiction].
  - destruct (Req_dec_T _ 0); [reflexivity|].
    rewrite Rabs_radius by exact Hk. reflexivity.
Qed.

Lemma Arc_after_idem (a : Arc.t) (theta : R) :
  Arc_after (Arc_after a theta) theta = Arc_after a theta.
Proof.
  unfold Arc_after; cbn. destruct (Req_dec_T theta 0); reflexivity.
Qed.

Lemma Arc_after_settled (a : Arc.t) (theta : R) :
  Arc.curvature a <> 0 ->
  Arc_sweep a = Some theta ->
  let a1 := Arc_after a theta in
  let theta' := Arc_resweep (Arc.curvature a) theta in
  let a2 := Arc_after a1 theta' in
  Arc_sweep a1 = Some theta' /\ Arc_sweep a2 = Some theta' /\
  Arc_after a2 theta' = a2 /\ Arc.length a2 = Arc.length a1.
Proof.
  intros Hk Hs a1 theta' a2.
  assert (H1 : Arc_sweep a1 = Some theta') by (apply Arc_sweep_after; assumption).
  assert (H2 : Arc_sweep a2 = Some theta').
  { unfold a2. rewrite (Arc_sweep_after a1 theta' Hk H1). cbn.
    f_equal. apply Arc_resweep_idem. exact Hk. }
  repeat split.
  - exact H1.
  - exact H2.
  - apply Arc_after_idem.
  - apply Arc_after_length. exact Hk.
Qed.

Lemma settle_wf (g g1 : geom_type) :
  wf_geom g -> settle g = Ok g1 -> wf_geom g1.
Proof.
  destruct g as [l|s|a|p]; cbn; intros Hwf H.
  - injection H as <-. exact I.
  - destruct (Req_dec_T (Spiral.length s) 0); [discriminate|].
    injection H as <-. exact I.
  - destruct (Arc_sweep a); [|discriminate]. injection H as <-. exact Hwf.
  - destruct (ParamPoly3_p p); [|discriminate]. injection H as <-. exact I.
Qed.

Lemma ParamPoly3_after_p (p : ParamPoly3.t) :
  ParamPoly3_p (ParamPoly3_after p) = ParamPoly3_p p.
Proof.
  unfold ParamPoly3_p, ParamPoly3_after.
  destruct (String.eqb (ParamPoly3.prange p) "normalized") eqn:E; cbn.
  - rewrite E. reflexivity.
  - rewrite E. reflexivity.
Qed.

Lemma ParamPoly3_after_idem (p : ParamPoly3.t) :
  ParamPoly3_after (ParamPoly3_after p) = ParamPoly3_after p.
Proof.
  unfold ParamPoly3_after.
  destruct (String.eqb (ParamPoly3.prange p) "normalized") eqn:E; cbn.
  - rewrite E. reflexivity.
  - rewrite E. reflexivity.
Qed.

(** After one successful evaluation a second one succeeds too, returns the
    same length, and leaves an object on which every later evaluation
    returns what the second one did and changes nothing. *)
Lemma settle_twice (g g1 : geom_type) :
  wf_geom g -> settle g = Ok g1 ->
  exists g2,
    settle g1 = Ok g2 /\ settle g2 = Ok g2 /\
    (forall x y h, end_data g2 x y h = end_data g1 x y h) /\
    (forall x y h x' y' h',
        length_of (end_data g1 x' y' h') = length_of (end_data g x y h)).
Proof.
  destruct g as [l|s|a|p]; intros Hwf H; cbn [settle] in H.
  - injection H as <-. exists (GLine l). repeat split.
  - destruct (Req_dec_T (Spiral.length s) 0) as [E|E]; [discriminate|].
    injection H as <-. exists (GSpiral s). cbn [settle].
    destruct (Req_dec_T (Spiral.length s) 0); [contradiction|].
    repeat split.
  - destruct (Arc_sweep a) as [theta|] eqn:Hs; [|discriminate].
    injection H as <-.
    destruct (Arc_after_settled a theta Hwf Hs) as (H1 & H2 & H3 & H4).
    exists (GArc (Arc_after (Arc_after a theta)
                    (Arc_resweep (Arc.curvature a) theta))).
    cbn [settle]. rewrite H1, H2, H3. repeat split.
    + intros. cbn [end_data]. rewrite H1, H2, H3.
      change (Arc.curvature (Arc_after (Arc_after a theta)
                    (Arc_resweep (Arc.curvature a) theta)))
        with (Arc.curvature a).
      change (Arc.curvature (Arc_after a theta)) with (Arc.curvature a).
      destruct (Arc.circle (Arc.curvature a) x y h) as [[? ?] ?].
      rewrite H4. reflexivity.
    + intros. cbn [end_data]. rewrite H1, Hs.
      change (Arc.curvature (Arc_after a theta)) with (Arc.curvature a).
      destruct (Arc.circle (Arc.curvature a) x y h) as [[? ?] ?].
      destruct (Arc.circle (Arc.curvature a) x' y' h') as [[? ?] ?].
      unfold length_of. cbn [snd]. exact H4.
  - destruct (ParamPoly3_p p) as [q|] eqn:Hp; [|discriminate].
    injection H as <-. exists (GParamPoly3 (ParamPoly3_after p)).
    cbn [settle]. rewrite !ParamPoly3_after_idem, ParamPoly3_after_p, Hp.
    repeat split. intros. unfold length_of. cbn [end_data snd].
    rewrite ParamPoly3_after_idem. reflexivity.
Qed.

(** ** The object store *)

Lemma nth_error_update_same (sigma : store) (r : ref) (g0 g : geom_type) :
  nth_error sigma r = Some g0 -> nth_error (update sigma r g) r = Some g.
Proof.
  revert r; induction sigma as [|g1 sigma IH]; intros [|r] H; cbn in *;
    try discriminate; auto.
Qed.

Lemma nth_error_update_other (sigma : store) (r r' : ref) (g : geom_type) :
  r <> r' -> nth_error (update sigma r g) r' = nth_error sigma r'.
Proof.
  revert r r'; induction sigma as [|g1 sigma IH]; intros [|r] [|r'] H; cbn;
    try reflexivity; try congruence.
  apply IH. congruence.
Qed.

Lemma update_id (sigma : store) (r : ref) (g : geom_type) :
  nth_error sigma r = Some g -> update sigma r g = sigma.
Proof.
  revert r; induction sigma as [|g1 sigma IH]; intros [|r] H; cbn in *;
    try discriminate; try congruence.
  f_equal. apply IH. exact H.
Qed.

Lemma Forall_update (P : geom_type -> Prop) (sigma : store) (r : ref)
  (g : geom_type) :
  Forall P sigma -> P g -> Forall P (update sigma r g).
Proof.
  intros H Hg. revert r.
  induction H as [|g1 sigma Hg1 H IH]; intros [|r]; cbn; auto.
Qed.

Lemma Forall_nth_error {A} (P : A -> Prop) (l : list A) (i : nat) (a : A) :
  Forall P l -> nth_error l i = Some a -> P a.
Proof.
  intros H Hi. rewrite Forall_forall in H. apply H.
  eapply nth_error_In. exact Hi.
Qed.

(** [geom.get_end_data(x, y, h)] through a reference, in closed form. *)
Lemma at_ref_get_end_data (r : ref) (x y h : R) (sigma : store) :
  at_ref r (get_end_data x y h) sigma =
  match nth_error sigma r with
  | None => (Raise NoSuchObject, sigma)
  | Some g =>
      match settle g with
      | Ok g' => (Ok (end_data g x y h), update sigma r g')
      | Raise e => (Raise e, sigma)
      end
  end.
Proof.
  unfold at_ref. destruct (nth_error sigma r) as [g|] eqn:E; [|reflexivity].
  rewrite get_end_data_eq. destruct (settle g); [reflexivity|].
  rewrite (update_id _ _ _ E). reflexivity.
Qed.

(** Evaluating the object at [r] leaves every settled object of the store
    in place. *)
Lemma settled_kept (sigma : store) (r r' : ref) (g0 g1 g : geom_type) :
  nth_error sigma r = Some g0 -> settle g0 = Ok g1 ->
  nth_error sigma r' = Some g -> settled g ->
  nth_error (update sigma r g1) r' = Some g.
Proof.
  intros H0 H1 Hg Hs. destruct (Nat.eq_dec r r') as [<-|Hne].
  - rewrite (nth_error_update_same _ _ _ _ H0).
    unfold settled in Hs. congruence.
  - rewrite nth_error_update_other by exact Hne. exact Hg.
Qed.

(** ** One step of [adjust_geometires], in closed form *)

Lemma adjust_step_eq (i : nat) (sigma : store) (self : PlanView.t) :
  PlanView.adjust_step i (sigma, self) =
  match step_heading self i with
  | None => (Raise IndexError, (sigma, self))
  | Some hd =>
      let self1 :=
        if (0 <? List.length (PlanView._overridden_headings self))%nat
        then PlanView.set_present_h hd self else self in
      match nth_error (PlanView._raw_geometries self) i with
      | None => (Raise IndexError, (sigma, self1))
      | Some r =>
          match nth_error sigma r with
          | None => (Raise NoSuchObject, (sigma, self1))
          | Some g0 =>
              match settle g0 with
              | Raise e => (Raise e, (sigma, self1))
              | Ok g1 =>
                  let sigma1 := update sigma r g1 in
                  match settle g1 with
                  | Raise e => (Raise e, (sigma1, self1))
                  | Ok g2 =>
                      let sigma2 := update sigma1 r g2 in
                      let '(x', y', h', len) :=
                        end_data g1 (PlanView.present_x self)
                          (PlanView.present_y self) hd in
                      let self2 := PlanView.set_present_pose x' y' h' self1 in
                      match len with
                      | None => (Raise TypeError, (sigma2, self2))
                      | Some l =>
                          (Ok tt,
                           (sigma2,
                            PlanView.append_adjusted
                              (new_geometry self hd r g0)
                              (PlanView.set_present_s
                                 (PlanView.present_s self + l) self2)))
                      end
                  end
              end
          end
      end
  end.
Proof.
  cbv beta iota zeta delta
    [PlanView.adjust_step step_heading PlanView.self_ PlanView.on_self
       PlanView.in_store index _Geometry.__init__ _Geometry.get_end_data
       bind ret raise num fst snd].
  destruct (0 <? List.length (PlanView._overridden_headings self))%nat eqn:Eo.
  - destruct (nth_error (PlanView._overridden_headings self) i) as [hd|] eqn:Eh;
      [|reflexivity].
    cbn [PlanView._raw_geometries PlanView.set_present_h PlanView.present_x
           PlanView.present_y PlanView.present_s PlanView.present_h].
    destruct (nth_error (PlanView._raw_geometries self) i) as [r|]; [|reflexivity].
    rewrite at_ref_get_end_data.
    destruct (nth_error sigma r) as [g0|] eqn:E0; [|reflexivity].
    destruct (settle g0) as [g1|e] eqn:E1; [|reflexivity].
    destruct (end_data g0 _ _ hd) as [[[x0 y0] h0] len0] eqn:Ed0.
    cbn [_Geometry.geom_type _Geometry.x _Geometry.y _Geometry.heading].
    rewrite at_ref_get_end_data.
    rewrite (nth_error_update_same _ _ _ _ E0).
    destruct (settle g1) as [g2|e] eqn:E2; [|reflexivity].
    destruct (end_data g1 _ _ hd) as [[[x1 y1] h1] len1] eqn:Ed1.
    destruct len1 as [l|]; [|reflexivity].
    unfold new_geometry, length_of. rewrite Ed0. reflexivity.
  - destruct (nth_error (PlanView._raw_geometries self) i) as [r|]; [|reflexivity].
    rewrite at_ref_get_end_data.
    destruct (nth_error sigma r) as [g0|] eqn:E0; [|reflexivity].
    destruct (settle g0) as [g1|e] eqn:E1; [|reflexivity].
    destruct (end_data g0 _ _ (PlanView.present_h self))
      as [[[x0 y0] h0] len0] eqn:Ed0.
    cbn [_Geometry.geom_type _Geometry.x _Geometry.y _Geometry.heading].
    rewrite at_ref_get_end_data.
    rewrite (nth_error_update_same _ _ _ _ E0).
    destruct (settle g1) as [g2|e] eqn:E2; [|reflexivity].
    destruct (end_data g1 _ _ (PlanView.present_h self))
      as [[[x1 y1] h1] len1] eqn:Ed1.
    destruct len1 as [l|]; [|reflexivity].
    unfold new_geometry, length_of. rewrite Ed0. reflexivity.
Qed.

(** ** Loops *)

Lemma for_each_app {S} (l1 l2 : list nat) (body : nat -> M S unit) (w : S) :
  for_each (l1 ++ l2) body w =
  match for_each l1 body w with
  | (Ok _, w1) => for_each l2 body w1
  | (Raise e, w1) => (Raise e, w1)
  end.
Proof.
  revert w. induction l1 as [|i l1 IH]; intros w; cbn.
  - reflexivity.
  - unfold bind. destruct (body i w) as [[[]|e] w1]; [apply IH|reflexivity].
Qed.

Lemma for_each_cons {S} (i : nat) (rest : list nat) (body : nat -> M S unit)
  (w : S) :
  for_each (i :: rest) body w =
  match body i w with
  | (Ok _, w1) => for_each rest body w1
  | (Raise e, w1) => (Raise e, w1)
  end.
Proof. reflexivity. Qed.

(** An invariant indexed by the loop counter. *)
Lemma for_each_seq_inv {S} (I : nat -> S -> Prop) (body : nat -> M S unit)
  (n a : nat) (w w' : S) :
  (forall i v v', (a <= i < a + n)%nat ->
                  I i v -> body i v = (Ok tt, v') -> I (Datatypes.S i) v') ->
  I a w -> for_each (seq a n) body w = (Ok tt, w') -> I (a + n)%nat w'.
Proof.
  revert a w. induction n as [|n IH]; intros a w Hstep Ha Hrun.
  - cbn in Hrun. unfold ret in Hrun. injection Hrun as <-.
    rewrite Nat.add_0_r. exact Ha.
  - cbn [seq] in Hrun. rewrite for_each_cons in Hrun.
    destruct (body a w) as [[[]|e] w1] eqn:Eb; [|discriminate].
    replace (a + Datatypes.S n)%nat with (Datatypes.S a + n)%nat by lia.
    apply (IH (Datatypes.S a) w1).
    + intros i v v' Hi. apply Hstep. lia.
    + apply (Hstep a w w1); [lia|exact Ha|exact Eb].
    + exact Hrun.
Qed.

(** ** The chain of geometries *)

Lemma linked_snoc sigma free gs G fin :
  linked sigma free gs (start_of G) -> link sigma free G fin ->
  linked sigma free (gs ++ [G]) fin.
Proof.
  induction gs as [|G0 gs IH]; cbn; intros H HG.
  - split; [exact HG|exact I].
  - destruct H as [H0 H]. split; [|apply IH; assumption].
    destruct gs; exact H0.
Qed.

Lemma link_store sigma sigma' free G next :
  (forall r g, nth_error sigma r = Some g -> settled g ->
               nth_error sigma' r = Some g) ->
  link sigma free G next -> link sigma' free G next.
Proof.
  intros Hkeep (g & he & l & Hg & Hs & H).
  exists g, he, l. split; [apply Hkeep; assumption|]. split; assumption.
Qed.

Lemma linked_store sigma sigma' free gs fin :
  (forall r g, nth_error sigma r = Some g -> settled g ->
               nth_error sigma' r = Some g) ->
  linked sigma free gs fin -> linked sigma' free gs fin.
Proof.
  intros Hkeep. induction gs as [|G gs IH]; cbn; [auto|].
  intros [H0 H]. split; [eapply link_store; eassumption|auto].
Qed.

Lemma linked_heading sigma free gs fin fin' :
  px fin' = px fin -> py fin' = py fin -> ps fin' = ps fin ->
  (free -> ph fin' = ph fin) ->
  linked sigma free gs fin -> linked sigma free gs fin'.
Proof.
  intros Hx Hy Hs Hh. induction gs as [|G gs IH]; cbn; [auto|].
  intros [H0 H]. split; [|auto].
  destruct gs as [|G' gs]; [|exact H0]. cbn in *.
  destruct H0 as (g & he & l & Hg & Hst & He & Hl & Hsl & Hf).
  exists g, he, l. rewrite Hx, Hy, Hs. repeat split; try assumption.
  intros F. rewrite (Hh F). exact (Hf F).
Qed.

Lemma linked_consecutive sigma free gs fin i G G' :
  linked sigma free gs fin ->
  nth_error gs i = Some G -> nth_error gs (S i) = Some G' ->
  link sigma free G (start_of G').
Proof.
  revert i. induction gs as [|G0 gs IH]; intros i H Hi Hi'.
  - destruct i; discriminate.
  - destruct H as [H0 H]. destruct i as [|i]; cbn in Hi, Hi'.
    + injection Hi as <-. destruct gs as [|G1 gs]; [discriminate|].
      cbn in Hi'. injection Hi' as <-. exact H0.
    + eapply IH; eassumption.
Qed.

Lemma linked_last sigma free gs fin G :
  linked sigma free (gs ++ [G]) fin -> link sigma free G fin.
Proof.
  induction gs as [|G0 gs IH]; cbn.
  - intros [H _]. exact H.
  - intros [_ H]. apply IH. exact H.
Qed.

Lemma linked_sum sigma free gs fin :
  linked sigma free gs fin ->
  py_sum (map _Geometry.length gs) (first_s gs (ps fin)) = Ok (ps fin).
Proof.
  induction gs as [|G gs IH]; cbn; [reflexivity|].
  intros [(g & he & l & _ & _ & _ & Hl & Hs & _) H].
  rewrite Hl, Hs. specialize (IH H).
  destruct gs as [|G' gs]; cbn in *; exact IH.
Qed.

(** ** The invariant of the loop of [adjust_geometires] *)

Section Chain.
Variable ovr0 : list R.          (* the heading overrides *)
Variable raw0 : list ref.        (* the raw geometries *)
Variable old : list _Geometry.t. (* the geometries adjusted before the loop *)
Variable s0 : R.                 (* [present_s] before the loop *)

Lemma chain_inv_step (i : nat) (w w' : PlanView.world) :
  chain_inv ovr0 raw0 old s0 i w -> PlanView.adjust_step i w = (Ok tt, w') ->
  chain_inv ovr0 raw0 old s0 (S i) w'.
Proof.
  destruct w as [sigma self].
  intros [Hovr Hraw Hwf (gs & Hadj & Hlen & Hlk & Hfirst & Hnth)] Hstep.
  cbn [fst snd] in *.
  rewrite adjust_step_eq in Hstep.
  destruct (step_heading self i) as [hd|] eqn:Ehd; [|discriminate].
  destruct (nth_error (PlanView._raw_geometries self) i) as [r|] eqn:Er;
    [|discriminate].
  destruct (nth_error sigma r) as [g0|] eqn:E0; [|discriminate].
  destruct (settle g0) as [g1|] eqn:E1; [|discriminate].
  destruct (settle g1) as [g2|] eqn:E2; [|discriminate].
  destruct (end_data g1 _ _ hd) as [[[x' y'] h'] [l|]] eqn:Ed1; [|discriminate].
  cbv zeta in Hstep.
  remember (if (0 <? List.length (PlanView._overridden_headings self))%nat
            then PlanView.set_present_h hd self else self) as self1 eqn:Es1.
  assert (Hself1 :
    PlanView._adjusted_geometries self1 = PlanView._adjusted_geometries self /\
    PlanView._overridden_headings self1 = PlanView._overridden_headings self /\
    PlanView._raw_geometries self1 = PlanView._raw_geometries self).
  { subst self1.
    destruct (0 <? List.length (PlanView._overridden_headings self))%nat;
      repeat split. }
  destruct Hself1 as (Ha1 & Ho1 & Hr1). clear Es1.
  injection Hstep as <-.
  assert (Hwf0 : wf_geom g0) by (eapply Forall_nth_error; eassumption).
  destruct (settle_twice g0 g1 Hwf0 E1) as (g2' & E2' & Hfix & Hsame & Hlength).
  assert (g2' = g2) by congruence. subst g2'.
  assert (Hkeep : forall r' g, nth_error sigma r' = Some g -> settled g ->
            nth_error (update (update sigma r g1) r g2) r' = Some g).
  { intros r' g Hg Hs.
    eapply settled_kept; [eapply nth_error_update_same; exact E0|exact E2| |exact Hs].
    eapply settled_kept; eassumption. }
  assert (Hfree : ovr0 = [] -> hd = PlanView.present_h self).
  { intros F. unfold step_heading in Ehd. rewrite Hovr, F in Ehd. cbn in Ehd.
    congruence. }
  set (G := new_geometry self hd r g0).
  constructor; cbn [fst snd].
  - cbn. rewrite Ho1. exact Hovr.
  - cbn. rewrite Hr1. exact Hraw.
  - apply Forall_update; [apply Forall_update; [exact Hwf|]|].
    + eapply settle_wf; eassumption.
    + eapply settle_wf; [eapply settle_wf; eassumption|exact E2].
  - exists (gs ++ [G]). repeat split.
    + cbn. rewrite Ha1, Hadj, app_assoc. reflexivity.
    + rewrite length_app. cbn. lia.
    + apply linked_snoc.
      * eapply linked_store; [exact Hkeep|].
        eapply linked_heading; [| | | |exact Hlk]; cbn; try reflexivity.
        exact Hfree.
      * exists g2, h', l. cbn. repeat split.
        -- eapply nth_error_update_same. eapply nth_error_update_same. exact E0.
        -- exact Hfix.
        -- rewrite Hsame. exact Ed1.
        -- unfold length_of in Hlength.
           rewrite <- (Hlength _ _ _ (PlanView.present_x self)
                         (PlanView.present_y self) hd), Ed1. reflexivity.
    + destruct gs as [|G0 gs]; cbn in *; [|exact Hfirst]. exact Hfirst.
    + destruct (Nat.lt_ge_cases j (List.length gs)) as [Hj|Hj].
      * rewrite nth_error_app1 in H by exact Hj. apply (Hnth j G0 H).
      * rewrite nth_error_app2 in H by exact Hj.
        destruct (j - List.length gs)%nat as [|k] eqn:Ek; cbn in H.
        -- injection H as <-. assert (j = i) by lia. subst j.
           cbn. rewrite <- Hraw. exact Er.
        -- destruct k; discriminate.
    + intros Hne.
      destruct (Nat.lt_ge_cases j (List.length gs)) as [Hj|Hj].
      * rewrite nth_error_app1 in H by exact Hj. apply (Hnth j G0 H). exact Hne.
      * rewrite nth_error_app2 in H by exact Hj.
        destruct (j - List.length gs)%nat as [|k] eqn:Ek; cbn in H.
        -- injection H as <-. assert (j = i) by lia. subst j.
           cbn. unfold step_heading in Ehd. rewrite Hovr in Ehd.
           destruct ovr0; [contradiction|]. cbn in Ehd. exact Ehd.
        -- destruct k; discriminate.
Qed.

Lemma chain_inv_loop (n : nat) (w w' : PlanView.world) :
  chain_inv ovr0 raw0 old s0 0 w ->
  for_each (seq 0 n) PlanView.adjust_step w = (Ok tt, w') ->
  chain_inv ovr0 raw0 old s0 n w'.
Proof.
  intros H0 Hrun.
  apply (for_each_seq_inv (chain_inv ovr0 raw0 old s0) PlanView.adjust_step n 0 w w').
  - intros i v v' _. apply chain_inv_step.
  - exact H0.
  - exact Hrun.
Qed.
End Chain.

(** A store, and a plan view about to be adjusted, start the invariant. *)
Lemma chain_inv_start (sigma : store) (self : PlanView.t) :
  Forall wf_geom sigma ->
  chain_inv (PlanView._overridden_headings self) (PlanView._raw_geometries self)
    (PlanView._adjusted_geometries self) (PlanView.present_s self)
    0 (sigma, self).
Proof.
  intros Hwf. constructor; cbn; try reflexivity; try exact Hwf.
  exists []. rewrite app_nil_r. repeat split.
  - destruct j; discriminate.
  - destruct j; discriminate.
Qed.

(** What a successful [adjust_geometires] establishes. *)
Lemma adjust_geometires_chain (sigma sigma' : store) (self self' : PlanView.t) :
  Forall wf_geom sigma ->
  PlanView.adjust_geometires (sigma, self) = (Ok tt, (sigma', self')) ->
  chain_inv (PlanView._overridden_headings self) (PlanView._raw_geometries self)
    (PlanView._adjusted_geometries self) (PlanView.present_s self)
    (List.length (PlanView._raw_geometries self)) (sigma', self').
Proof.
  intros Hwf Hrun. unfold PlanView.adjust_geometires in Hrun.
  unfold bind at 1, PlanView.self_ in Hrun. cbn [snd] in Hrun.
  eapply chain_inv_loop; [apply chain_inv_start; exact Hwf|exact Hrun].
Qed.

(** The end pose of a linked geometry, read through its accessor. *)
Lemma link_get_end_data sigma free G next :
  link sigma free G next ->
  exists he l,
    _Geometry.get_end_data G sigma = (Ok (px next, py next, he, Some l), sigma) /\
    _Geometry.length G = Some l /\
    _Geometry.s G + l = ps next /\
    (free -> he = ph next).
Proof.
  intros (g & he & l & Hg & Hs & He & Hl & Hsl & Hf).
  exists he, l. repeat split; try assumption.
  unfold _Geometry.get_end_data. rewrite at_ref_get_end_data, Hg, Hs, He.
  rewrite (update_id _ _ _ Hg). reflexivity.
Qed.

(** ** Pose continuity (C4) *)

(** C4, amended: after a plan view that had no adjusted geometry is
    finalized, the end position (x, y) of each geometry whose segment is a
    Line, a Spiral or a ParamPoly3, read through [_Geometry.get_end_data],
    is exactly the start position of the next one; the end heading is the
    start heading of the next one when no heading override was recorded,
    and with overrides the start heading of geometry [i+1] is the override
    at index [i+1].  (The end pose of an arc is left out: reading it
    evaluates the arc once more, see [Binary64.end_pose_drifts].) *)
Theorem pose_continuity
  (sigma sigma' : store) (self self' : PlanView.t) (i : nat)
  (G G' : _Geometry.t) :
  Forall wf_geom sigma ->
  PlanView._adjusted_geometries self = [] ->
  PlanView.adjust_geometires (sigma, self) = (Ok tt, (sigma', self')) ->
  nth_error (PlanView._adjusted_geometries self') i = Some G ->
  nth_error (PlanView._adjusted_geometries self') (S i) = Some G' ->
  (exists g, nth_error sigma (_Geometry.geom_type G) = Some g /\ not_arc g) ->
  exists x' y' h' l,
    _Geometry.get_end_data G sigma' = (Ok (x', y', h', l), sigma') /\
    x' = _Geometry.x G' /\
    y' = _Geometry.y G' /\
    (PlanView._overridden_headings self = [] -> h' = _Geometry.heading G') /\
    (PlanView._overridden_headings self <> [] ->
     nth_error (PlanView._overridden_headings self) (S i)
     = Some (_Geometry.heading G')).
Proof.
  intros Hwf Hnil Hrun Hi Hi' _.
  destruct (adjust_geometires_chain _ _ _ _ Hwf Hrun)
    as [_ _ _ (gs & Hadj & _ & Hlk & _ & Hnth)].
  cbn [fst snd] in *. rewrite Hnil in Hadj. cbn in Hadj. rewrite Hadj in *.
  pose proof (linked_consecutive _ _ _ _ _ _ _ Hlk Hi Hi') as L.
  destruct (link_get_end_data _ _ _ _ L) as (he & l & Hget & _ & _ & Hf).
  exists (_Geometry.x G'), (_Geometry.y G'), he, (Some l).
  repeat split.
  - exact Hget.
  - exact Hf.
  - intros Hne. apply (Hnth (S i) G' Hi'). exact Hne.
Qed.

(** ** Arc length in exact arithmetic *)

(** With numbers as reals: after a fresh plan view ([present_s = 0], nothing
    adjusted yet) is finalized, each geometry's start arc length plus its
    length is the next geometry's start arc length, and the total length is
    the sum of the lengths of the geometries.  The code does not keep this
    in binary64, where the two evaluations of an arc in one iteration return
    different lengths: see [Binary64.arc_length_chain_binary64]. *)
Theorem arc_length_chain
  (sigma sigma' : store) (self self' : PlanView.t) :
  Forall wf_geom sigma ->
  PlanView._adjusted_geometries self = [] ->
  PlanView.present_s self = 0 ->
  PlanView.adjust_geometires (sigma, self) = (Ok tt, (sigma', self')) ->
  (forall i G G',
      nth_error (PlanView._adjusted_geometries self') i = Some G ->
      nth_error (PlanView._adjusted_geometries self') (S i) = Some G' ->
      exists l, _Geometry.length G = Some l /\
                _Geometry.s G + l = _Geometry.s G') /\
  py_sum (map _Geometry.length (PlanView._adjusted_geometries self')) 0
  = Ok (PlanView.get_total_length self').
Proof.
  intros Hwf Hnil Hs0 Hrun.
  destruct (adjust_geometires_chain _ _ _ _ Hwf Hrun)
    as [_ _ _ (gs & Hadj & _ & Hlk & Hfirst & _)].
  cbn [fst snd] in *. rewrite Hnil in Hadj. cbn in Hadj. rewrite Hadj.
  split.
  - intros i G G' Hi Hi'.
    destruct (linked_consecutive _ _ _ _ _ _ _ Hlk Hi Hi')
      as (g & he & l & _ & _ & _ & Hl & Hsl & _).
    exists l. split; assumption.
  - pose proof (linked_sum _ _ _ _ Hlk) as Hsum. cbn [ps present_of] in Hsum.
    rewrite Hfirst, Hs0 in Hsum. exact Hsum.
Qed.

(** ** Progress of [adjust_geometires] *)

Lemma evaluable_can_settle (g : geom_type) : evaluable g <-> can_settle g.
Proof.
  split; intros [Hwf H]; (split; [exact Hwf|]).
  - destruct H as [l H].
    destruct (H 0 0 0) as (x' & y' & h' & g' & E).
    rewrite get_end_data_eq in E.
    destruct (settle g) as [g1|] eqn:Es; [|discriminate].
    exists g1, l. split; [reflexivity|]. intros x y h.
    destruct (H x y h) as (x1 & y1 & h1 & g1' & E').
    rewrite get_end_data_eq, Es in E'. injection E' as E' _.
    unfold length_of. rewrite E'. reflexivity.
  - destruct H as (g1 & l & Hs & Hl). exists l. intros x y h.
    rewrite get_end_data_eq, Hs. specialize (Hl x y h).
    destruct (end_data g x y h) as [[[x' y'] h'] len].
    unfold length_of in Hl. cbn in Hl. subst len. eauto.
Qed.

Lemma raw_ready_settles (sigma : store) (raw : list ref) :
  raw_ready sigma raw <-> raw_settles sigma raw.
Proof.
  split; intros H r Hin; destruct (H r Hin) as (g & Hg & He);
    exists g; (split; [exact Hg|]); apply evaluable_can_settle; exact He.
Qed.

Lemma can_settle_again (g g1 : geom_type) :
  can_settle g -> settle g = Ok g1 -> can_settle g1.
Proof.
  intros (Hwf & g1' & l & Hs & Hl) H1.
  destruct (settle_twice g g1 Hwf H1) as (g2 & H2 & _ & _ & Hlen).
  split; [eapply settle_wf; eassumption|].
  exists g2, l. split; [exact H2|].
  intros x y h. rewrite (Hlen 0 0 0 x y h). apply Hl.
Qed.

Lemma raw_settles_update sigma raw r g0 g1 :
  raw_settles sigma raw -> nth_error sigma r = Some g0 -> can_settle g1 ->
  raw_settles (update sigma r g1) raw.
Proof.
  intros Hr H0 H1 r' Hin. destruct (Nat.eq_dec r r') as [<-|Hne].
  - exists g1. split; [eapply nth_error_update_same; exact H0|exact H1].
  - rewrite nth_error_update_other by exact Hne. apply Hr. exact Hin.
Qed.

(** A step whose indices are in range succeeds on objects that can be
    evaluated. *)
Lemma adjust_step_progress (i : nat) (sigma : store) (self : PlanView.t)
  (hd : R) (r : ref) :
  raw_settles sigma (PlanView._raw_geometries self) ->
  step_heading self i = Some hd ->
  nth_error (PlanView._raw_geometries self) i = Some r ->
  exists sigma' self',
    PlanView.adjust_step i (sigma, self) = (Ok tt, (sigma', self')) /\
    raw_settles sigma' (PlanView._raw_geometries self') /\
    PlanView._raw_geometries self' = PlanView._raw_geometries self /\
    PlanView._overridden_headings self' = PlanView._overridden_headings self /\
    List.length (PlanView._adjusted_geometries self')
    = S (List.length (PlanView._adjusted_geometries self)).
Proof.
  intros Hready Hhd Hr.
  destruct (Hready r (nth_error_In _ _ Hr)) as (g0 & E0 & Hev0).
  pose proof Hev0 as (Hwf0 & g1 & l0 & E1 & Hl0).
  pose proof (can_settle_again _ _ Hev0 E1) as Hev1.
  pose proof Hev1 as (Hwf1 & g2 & l1 & E2 & Hl1).
  pose proof (can_settle_again _ _ Hev1 E2) as Hev2.
  rewrite adjust_step_eq, Hhd, Hr, E0, E1, E2. cbv zeta.
  specialize (Hl1 (PlanView.present_x self) (PlanView.present_y self) hd).
  destruct (end_data g1 _ _ hd) as [[[x' y'] h'] len].
  unfold length_of in Hl1. cbn in Hl1. subst len.
  remember (if (0 <? List.length (PlanView._overridden_headings self))%nat
            then PlanView.set_present_h hd self else self) as self1 eqn:Es1.
  assert (Hself1 :
    PlanView._adjusted_geometries self1 = PlanView._adjusted_geometries self /\
    PlanView._overridden_headings self1 = PlanView._overridden_headings self /\
    PlanView._raw_geometries self1 = PlanView._raw_geometries self).
  { subst self1.
    destruct (0 <? List.length (PlanView._overridden_headings self))%nat;
      repeat split. }
  destruct Hself1 as (Ha1 & Ho1 & Hr1). clear Es1.
  eexists _, _. split; [reflexivity|].
  cbn. rewrite Ha1, Ho1, Hr1. repeat split.
  - eapply raw_settles_update;
      [eapply raw_settles_update; eassumption
      |eapply nth_error_update_same; exact E0|exact Hev2].
  - rewrite length_app. cbn. lia.
Qed.

(** The loop runs through every index that is in range for both lists. *)
Lemma adjust_loop_progress (n a : nat) (sigma : store) (self : PlanView.t) :
  raw_settles sigma (PlanView._raw_geometries self) ->
  (a + n <= List.length (PlanView._raw_geometries self))%nat ->
  (PlanView._overridden_headings self = [] \/
   a + n <= List.length (PlanView._overridden_headings self))%nat ->
  exists sigma' self',
    for_each (seq a n) PlanView.adjust_step (sigma, self)
    = (Ok tt, (sigma', self')) /\
    raw_settles sigma' (PlanView._raw_geometries self') /\
    PlanView._raw_geometries self' = PlanView._raw_geometries self /\
    PlanView._overridden_headings self' = PlanView._overridden_headings self /\
    List.length (PlanView._adjusted_geometries self')
    = (List.length (PlanView._adjusted_geometries self) + n)%nat.
Proof.
  revert a sigma self. induction n as [|n IH]; intros a sigma self Hready Hraw Hovr.
  - exists sigma, self. cbn. repeat split; try assumption. lia.
  - assert (Hr : exists r, nth_error (PlanView._raw_geometries self) a = Some r).
    { destruct (nth_error (PlanView._raw_geometries self) a) eqn:E; [eauto|].
      apply nth_error_None in E. lia. }
    destruct Hr as [r Hr].
    assert (Hh : exists hd, step_heading self a = Some hd).
    { unfold step_heading. destruct Hovr as [Hnil|Hlen].
      - rewrite Hnil. cbn. eauto.
      - destruct (0 <? _)%nat; [|eauto].
        destruct (nth_error (PlanView._overridden_headings self) a) eqn:E;
          [eauto|]. apply nth_error_None in E. lia. }
    destruct Hh as [hd Hh].
    destruct (adjust_step_progress a sigma self hd r Hready Hh Hr)
      as (sigma1 & self1 & Hstep & Hready1 & Hraw1 & Hovr1 & Hlen1).
    destruct (IH (S a) sigma1 self1) as (sigma' & self' & Hrun & H1 & H2 & H3 & H4).
    + exact Hready1.
    + rewrite Hraw1. lia.
    + rewrite Hovr1. destruct Hovr; [left; assumption|right; lia].
    + exists sigma', self'. cbn [seq]. rewrite for_each_cons, Hstep.
      repeat split; try assumption; try congruence. lia.
Qed.

(** After a successful finalization every raw geometry can be evaluated. *)
Lemma linked_nth sigma free gs fin j G :
  linked sigma free gs fin -> nth_error gs j = Some G ->
  exists next, link sigma free G next.
Proof.
  revert j. induction gs as [|G0 gs IH]; intros [|j] H Hj; cbn in *;
    try discriminate.
  - injection Hj as <-. destruct H as [H _]. eauto.
  - destruct H as [_ H]. eapply IH; eassumption.
Qed.

Lemma link_can_settle sigma free G next :
  Forall wf_geom sigma -> link sigma free G next ->
  exists g, nth_error sigma (_Geometry.geom_type G) = Some g /\ can_settle g.
Proof.
  intros Hwf (g & he & l & Hg & Hs & He & _).
  assert (Hwfg : wf_geom g) by (eapply Forall_nth_error; eassumption).
  exists g. split; [exact Hg|]. split; [exact Hwfg|].
  exists g, l. split; [exact Hs|]. intros x y h.
  destruct (settle_twice g g Hwfg Hs) as (g2 & _ & _ & _ & Hlen).
  rewrite (Hlen (_Geometry.x G) (_Geometry.y G) (_Geometry.heading G) x y h).
  rewrite He. reflexivity.
Qed.

Lemma map_of_nth {A B} (f : A -> B) (l : list A) (m : list B) :
  List.length l = List.length m ->
  (forall j a, nth_error l j = Some a -> nth_error m j = Some (f a)) ->
  map f l = m.
Proof.
  revert m. induction l as [|a l IH]; intros [|b m] Hlen H; cbn in *;
    try discriminate; [reflexivity|].
  f_equal.
  - specialize (H 0%nat a eq_refl). cbn in H. congruence.
  - apply IH; [lia|]. intros j a' Hj. apply (H (S j) a' Hj).
Qed.

(** ** Repeated finalization (C8) *)

(** C8: finalizing a second time does not reset the derived sequence: the
    second run succeeds and appends one more geometry per raw geometry, for
    the same objects in the same order, after the geometries of the first
    run. *)
Theorem second_finalization_appends
  (sigma sigma1 : store) (self self1 : PlanView.t) :
  Forall wf_geom sigma ->
  PlanView._adjusted_geometries self = [] ->
  PlanView.adjust_geometires (sigma, self) = (Ok tt, (sigma1, self1)) ->
  exists sigma2 self2 gs,
    PlanView.adjust_geometires (sigma1, self1) = (Ok tt, (sigma2, self2)) /\
    PlanView._adjusted_geometries self2
    = PlanView._adjusted_geometries self1 ++ gs /\
    map _Geometry.geom_type gs = PlanView._raw_geometries self /\
    map _Geometry.geom_type (PlanView._adjusted_geometries self1)
    = PlanView._raw_geometries self.
Proof.
  intros Hwf Hnil Hrun.
  destruct (adjust_geometires_chain _ _ _ _ Hwf Hrun)
    as [Hovr Hraw Hwf1 (gs1 & Hadj1 & Hlen1 & Hlk1 & _ & Hnth1)].
  cbn [fst snd] in *. rewrite Hnil in Hadj1. cbn in Hadj1.
  assert (Hready : raw_settles sigma1 (PlanView._raw_geometries self1)).
  { intros r Hin. rewrite Hraw in Hin.
    destruct (In_nth_error _ _ Hin) as [j Hj].
    assert (Hlt : (j < List.length gs1)%nat).
    { rewrite Hlen1. apply nth_error_Some. congruence. }
    destruct (nth_error gs1 j) as [G|] eqn:EG;
      [|apply nth_error_None in EG; lia].
    destruct (Hnth1 j G EG) as [Href _].
    assert (r = _Geometry.geom_type G) by congruence. subst r.
    destruct (linked_nth _ _ _ _ _ _ Hlk1 EG) as [next L].
    eapply link_can_settle; eassumption. }
  assert (Hcover : PlanView._overridden_headings self1 = [] \/
                   (0 + List.length (PlanView._raw_geometries self1)
                    <= List.length (PlanView._overridden_headings self1))%nat).
  { rewrite Hovr, Hraw.
    destruct (PlanView._overridden_headings self) as [|o ovr] eqn:Eo;
      [left; reflexivity|right].
    destruct (List.length (PlanView._raw_geometries self)) as [|m] eqn:En;
      [cbn; lia|].
    destruct (nth_error gs1 m) as [G|] eqn:EG;
      [|apply nth_error_None in EG; lia].
    destruct (Hnth1 m G EG) as [_ Hh].
    assert (Hsome : nth_error (o :: ovr) m <> None)
      by (rewrite Hh; discriminate).
    apply nth_error_Some in Hsome. cbn in *. lia. }
  destruct (adjust_loop_progress (List.length (PlanView._raw_geometries self1))
              0 sigma1 self1 Hready (Nat.le_refl _) Hcover)
    as (sigma2 & self2 & Hrun2 & _).
  assert (Hadj2 : PlanView.adjust_geometires (sigma1, self1)
                  = (Ok tt, (sigma2, self2))).
  { unfold PlanView.adjust_geometires, bind at 1, PlanView.self_.
    cbn [snd]. exact Hrun2. }
  destruct (adjust_geometires_chain _ _ _ _ Hwf1 Hadj2)
    as [_ _ _ (gs & Hadj & Hlen & _ & _ & Hnth)].
  cbn [fst snd] in *.
  exists sigma2, self2, gs. repeat split.
  - exact Hadj2.
  - exact Hadj.
  - rewrite <- Hraw. apply map_of_nth; [exact Hlen|].
    intros j G HG. apply (Hnth j G HG).
  - rewrite Hadj1. apply map_of_nth; [exact Hlen1|].
    intros j G HG. apply (Hnth1 j G HG).
Qed.

(** ** Indexing the heading overrides (C10) *)





(** ** Falsy heading overrides (C9) *)

Lemma add_geometry_falsy (geom : ref) (heading : value) (self : PlanView.t) :
  truthy heading = false ->
  PlanView.add_geometry geom heading self
  = PlanView.add_geometry geom None self.
Proof.
  intros H. unfold PlanView.add_geometry.
  destruct heading as [hd|]; [|reflexivity]. rewrite H. reflexivity.
Qed.

(** C9: a call of [add_geometry] with a falsy heading (0, 0.0 or [None])
    records no override; a caller who passes such a heading with every
    segment of a new plan view ends with an empty override list, and
    finalization runs exactly as if no heading had been passed. *)
Theorem falsy_overrides_ignored
  (calls : list (ref * value)) (self : PlanView.t)
  (x_start y_start h_start : R) (sigma : store) :
  Forall (fun c => truthy (snd c) = false) calls ->
  PlanView._overridden_headings (add_all calls self)
  = PlanView._overridden_headings self /\
  PlanView._raw_geometries (add_all calls self)
  = PlanView._raw_geometries self ++ map fst calls /\
  PlanView._overridden_headings
    (add_all calls (PlanView.__init__ x_start y_start h_start)) = [] /\
  PlanView.adjust_geometires (sigma, add_all calls self)
  = PlanView.adjust_geometires (sigma, add_all (without_heading calls) self).
Proof.
  intros Hfalsy.
  assert (Hgen : forall pv,
    add_all calls pv = add_all (without_heading calls) pv /\
    PlanView._overridden_headings (add_all calls pv)
    = PlanView._overridden_headings pv /\
    PlanView._raw_geometries (add_all calls pv)
    = PlanView._raw_geometries pv ++ map fst calls).
  { induction Hfalsy as [|c calls Hc _ IH]; intros pv; cbn.
    - rewrite app_nil_r. repeat split.
    - destruct (IH (PlanView.add_geometry (fst c) (snd c) pv))
        as (H1 & H2 & H3).
      unfold add_all in *. rewrite H2, H3.
      rewrite H1, (add_geometry_falsy _ _ _ Hc). cbn.
      rewrite <- app_assoc. repeat split. }
  destruct (Hgen self) as (H1 & H2 & H3).
  destruct (Hgen (PlanView.__init__ x_start y_start h_start)) as (_ & H4 & _).
  repeat split; try assumption. rewrite H1. reflexivity.
Qed.

(** ** Construction errors (C6) *)

Lemma construct_invalid (c : ctor_call) :
  invalid_definition c -> exists msg, construct c = Raise (ValueError msg).
Proof.
  destruct c as [l|cs ce l|k l a|au bu cu du av bv cv dv prange l]; cbn;
    try contradiction.
  - unfold Arc.__init__. intros [Hk|[[-> ->]|[Hl Ha]]].
    + destruct l, a; cbn; eauto; destruct (Req_dec_T k 0);
        try contradiction; cbn; eauto.
    + cbn. eauto.
    + destruct l, a; try congruence. cbn. eauto.
  - intros [-> ->]. cbn. eauto.
Qed.

Lemma construct_valid (c : ctor_call) :
  ~ invalid_definition c -> exists g, construct c = Ok g.
Proof.
  destruct c as [l|cs ce l|k l a|au bu cu du av bv cv dv prange l]; cbn;
    intros Hv; eauto.
  - unfold Arc.__init__. destruct l as [l|], a as [a|].
    + exfalso. apply Hv. right. right. split; discriminate.
    + destruct (Req_dec_T k 0); [exfalso; apply Hv; left; assumption|].
      cbn. eauto.
    + destruct (Req_dec_T k 0); [exfalso; apply Hv; left; assumption|].
      cbn. eauto.
    + exfalso. apply Hv. right. left. split; reflexivity.
  - unfold ParamPoly3.__init__.
    destruct (String.eqb_spec prange "arcLength") as [Hp|Hp];
      destruct l as [l|]; cbn; eauto.
    exfalso. apply Hv. split; [exact Hp|reflexivity].
Qed.

Lemma invalid_definition_dec (c : ctor_call) :
  invalid_definition c \/ ~ invalid_definition c.
Proof.
  destruct c as [l|cs ce l|k l a|au bu cu du av bv cv dv prange l]; cbn;
    try (right; tauto).
  - destruct (Req_dec_T k 0) as [Hk|Hk]; [left; left; exact Hk|].
    destruct l as [l|], a as [a|].
    + left. right. right. split; discriminate.
    + right. intros [H|[[H _]|[_ H]]]; [contradiction|discriminate|congruence].
    + right. intros [H|[[_ H]|[H _]]]; [contradiction|discriminate|congruence].
    + left. right. left. split; reflexivity.
  - destruct (string_dec prange "arcLength") as [Hp|Hp];
      destruct l as [l|].
    + right. intros [_ H]. discriminate.
    + left. split; [exact Hp|reflexivity].
    + right. intros [H _]. contradiction.
    + right. intros [H _]. contradiction.
Qed.

(** C6: a constructor raises exactly on the invalid definitions (an arc
    with zero curvature, or with neither or both of length and angle; a
    ParamPoly3 with prange "arcLength" and no length); the error is a
    [ValueError] raised by the constructor itself, and every other call
    returns the object. *)
Theorem construction_errors (c : ctor_call) :
  (invalid_definition c <-> exists e, construct c = Raise e) /\
  (forall e, construct c = Raise e -> exists msg, e = ValueError msg) /\
  (~ invalid_definition c <-> exists g, construct c = Ok g).
Proof.
  destruct (invalid_definition_dec c) as [Hi|Hv].
  - destruct (construct_invalid c Hi) as [msg Hm]. repeat split.
    + intros _. eauto.
    + intros _. exact Hi.
    + intros e He. exists msg. congruence.
    + intros Hn. contradiction.
    + intros [g Hg] _. congruence.
  - destruct (construct_valid c Hv) as [g Hg]. repeat split.
    + intros Hi. contradiction.
    + intros [e He]. congruence.
    + intros e He. congruence.
    + intros _. eauto.
    + intros _. exact Hv.
Qed.

(** ** End heading of a ParamPoly3 (C1) *)

Lemma arctan2_0_1 : np.arctan2 0 1 = 0.
Proof.
  unfold np.arctan2. destruct (Rlt_dec 0 1) as [_|H]; [|lra].
  replace (0 / 1) with 0 by field. apply atan_0.
Qed.

Lemma arctan2_1_1 : np.arctan2 1 1 = PI / 4.
Proof.
  unfold np.arctan2. destruct (Rlt_dec 0 1) as [_|H]; [|lra].
  replace (1 / 1) with 1 by field. apply atan_1.
Qed.

(** C1 at the failing input: from the pose (0, 0, 0) the code returns the
    end heading 0 for [parabola], where the spec's formula gives pi/4. *)
Theorem ParamPoly3_end_heading_at_parabola :
  exists x y h l self',
    ParamPoly3.get_end_data 0 0 0 parabola = (Ok (x, y, h, l), self') /\
    h = 0 /\
    spec_end_heading parabola 0 1 = PI / 4 /\
    h <> spec_end_heading parabola 0 1.
Proof.
  rewrite ParamPoly3_get_end_data_eq.
  unfold ParamPoly3_p, end_data. cbn [parabola ParamPoly3.prange String.eqb
    Ascii.eqb Bool.eqb ParamPoly3_p ParamPoly3.au ParamPoly3.bu ParamPoly3.cu
    ParamPoly3.du ParamPoly3.av ParamPoly3.bv ParamPoly3.cv ParamPoly3.dv].
  assert (Hcode : 0 + np.arctan2 (-1 + 1 * 1 + 0 * 1 ^ 2) (1 + 0 * 1 + 0 * 1 ^ 2)
                  = 0).
  { replace (-1 + 1 * 1 + 0 * 1 ^ 2) with 0 by ring.
    replace (1 + 0 * 1 + 0 * 1 ^ 2) with 1 by ring.
    rewrite arctan2_0_1. ring. }
  assert (Hspec : spec_end_heading parabola 0 1 = PI / 4).
  { unfold spec_end_heading. cbn [parabola ParamPoly3.bu ParamPoly3.cu
      ParamPoly3.du ParamPoly3.bv ParamPoly3.cv ParamPoly3.dv].
    replace (-1 + 2 * 1 * 1 + 3 * 0 * 1 ^ 2) with 1 by ring.
    replace (1 + 2 * 0 * 1 + 3 * 0 * 1 ^ 2) with 1 by ring.
    rewrite arctan2_1_1. ring. }
  eexists _, _, _, _, _. split; [reflexivity|].
  rewrite Hcode, Hspec. repeat split.
  pose proof PI_RGT_0. lra.
Qed.

(** ** End pose of an arc (C2) *)

Lemma cos_plus_PI2 (h : R) : cos (h + PI / 2) = - sin h.
Proof. rewrite cos_plus, cos_PI2, sin_PI2. ring. Qed.

Lemma sin_plus_PI2 (h : R) : sin (h + PI / 2) = cos h.
Proof. rewrite sin_plus, cos_PI2, sin_PI2. ring. Qed.

Lemma cos_minus_PI2 (h : R) : cos (h - PI / 2) = sin h.
Proof. rewrite cos_minus, cos_PI2, sin_PI2. ring. Qed.

Lemma sin_minus_PI2 (h : R) : sin (h - PI / 2) = - cos h.
Proof. rewrite sin_minus, cos_PI2, sin_PI2. ring. Qed.

(** C2 as stated fails: for the curvature -1 from the pose (0, 0, 0) the
    code puts the centre at (0, -1), to the right of the heading, not at
    (0, 1). *)
Lemma arc_centre_counterexample :
  centre (Arc.circle (-1) 0 0 0) = (0, -1) /\
  spec_centre (-1) 0 0 0 = (0, 1) /\
  centre (Arc.circle (-1) 0 0 0) <> spec_centre (-1) 0 0 0.
Proof.
  assert (Hc : centre (Arc.circle (-1) 0 0 0) = (0, -1)).
  { unfold centre, Arc.circle, np.abs, np.cos, np.sin, np.pi.
    destruct (Rlt_dec (-1) 0) as [_|H]; [|lra]. cbn [fst snd].
    rewrite cos_plus_PI2, sin_plus_PI2, sin_0, cos_0.
    rewrite Rabs_left by lra. f_equal; field. }
  assert (Hs : spec_centre (-1) 0 0 0 = (0, 1)).
  { unfold spec_centre.
    destruct (Rlt_dec (-1) 0) as [_|H]; [|lra].
    rewrite cos_plus_PI2, sin_plus_PI2, sin_0, cos_0.
    rewrite Rabs_left by lra. f_equal; field. }
  repeat split; [exact Hc|exact Hs|].
  rewrite Hc, Hs. intros H. injection H as H. lra.
Qed.

(** C2, amended: the centre of the circle lies at distance 1/|curvature|
    from the start point, in the direction of heading - 90 degrees (to the
    right) for a negative curvature and of heading + 90 degrees (to the
    left) for a positive one; the end heading is the start heading plus the
    sweep angle (the [angle] field after the evaluation), and the end
    position is the start point rotated about that centre by the sweep
    angle. *)
Theorem Arc_end_pose (a a' : Arc.t) (x y h x' y' h' : R) (l : value) :
  Arc.get_end_data x y h a = (Ok (x', y', h', l), a') ->
  let radius := 1 / Rabs (Arc.curvature a) in
  let x_0 := fst (centre (Arc.circle (Arc.curvature a) x y h)) in
  let y_0 := snd (centre (Arc.circle (Arc.curvature a) x y h)) in
  (Arc.curvature a < 0 ->
   x_0 = x + radius * cos (h - PI / 2) /\
   y_0 = y + radius * sin (h - PI / 2)) /\
  (0 < Arc.curvature a ->
   x_0 = x + radius * cos (h + PI / 2) /\
   y_0 = y + radius * sin (h + PI / 2)) /\
  exists sweep,
    Arc.angle a' = Some sweep /\
    h' = h + sweep /\
    x' = x_0 + (cos sweep * (x - x_0) - sin sweep * (y - y_0)) /\
    y' = y_0 + (sin sweep * (x - x_0) + cos sweep * (y - y_0)).
Proof.
  intros H radius x_0 y_0.
  rewrite Arc_get_end_data_eq in H.
  destruct (Arc_sweep a) as [theta|] eqn:Hs; [|discriminate].
  cbn [end_data] in H. rewrite Hs in H.
  subst x_0 y_0 radius. unfold centre.
  unfold Arc.circle, np.abs, np.cos, np.sin, np.pi in *.
  split; [|split].
  - intros Hk. destruct (Rlt_dec (Arc.curvature a) 0); [|contradiction].
    cbn [fst snd].
    rewrite cos_plus_PI2, cos_minus_PI2, sin_plus_PI2, sin_minus_PI2.
    split; ring.
  - intros Hk. destruct (Rlt_dec (Arc.curvature a) 0); [lra|].
    cbn [fst snd].
    rewrite cos_plus_PI2, cos_minus_PI2, sin_plus_PI2, sin_minus_PI2.
    split; ring.
  - exists theta.
    destruct (Rlt_dec (Arc.curvature a) 0); cbn [fst snd] in *;
      injection H as <- <- <- <- <-; cbn [Arc.angle Arc_after].
    + generalize (h + PI / 2) as phi_0. intros phi_0.
      rewrite (cos_plus theta phi_0), (sin_plus theta phi_0).
      repeat split; ring.
    + generalize (h - PI / 2) as phi_0. intros phi_0.
      rewrite (cos_plus theta phi_0), (sin_plus theta phi_0).
      repeat split; ring.
Qed.

(** ** What an evaluation does to the object (C3) *)

Lemma truthy_true (r : R) : r <> 0 -> truthy (Some r) = true.
Proof. intros H. apply truthy_Some. exact H. Qed.

(** C3 as stated fails: evaluating [Arc(1, angle=-1)] from (0, 0, 0) writes
    the length 1 onto the object, and a second evaluation from the same
    pose returns the end heading 1 where the first returned -1. *)
Lemma evaluation_counterexample :
  exists x1 y1 l1 g1 x2 y2 l2 g2,
    Arc.__init__ 1 None (Some (-1)) = Ok backward_arc /\
    get_end_data 0 0 0 (GArc backward_arc) = (Ok (x1, y1, -1, l1), g1) /\
    g1 <> GArc backward_arc /\
    get_end_data 0 0 0 g1 = (Ok (x2, y2, 1, l2), g2) /\
    (x2, y2, 1, l2) <> (x1, y1, -1, l1).
Proof.
  assert (Hk : Arc.curvature backward_arc <> 0) by (cbn; lra).
  assert (Hs : Arc_sweep backward_arc = Some (-1)) by reflexivity.
  assert (Hre : Arc_resweep 1 (-1) = 1).
  { unfold Arc_resweep. destruct (Req_dec_T (-1) 0); [lra|].
    rewrite Rabs_R1. replace (1 / 1 * -1) with (-1) by field.
    rewrite Rabs_left by lra. ring. }
  pose proof (Arc_sweep_after backward_arc (-1) Hk Hs) as Hs1.
  cbn [Arc.curvature backward_arc] in Hs1. rewrite Hre in Hs1.
  assert (H1 : exists x1 y1 l1,
             end_data (GArc backward_arc) 0 0 0 = (x1, y1, -1, l1)).
  { cbn [end_data]. rewrite Hs.
    destruct (Arc.circle (Arc.curvature backward_arc) 0 0 0) as [[p0 x0] y0].
    replace (0 + -1) with (-1) by ring. eauto. }
  assert (H2 : exists x2 y2 l2,
             end_data (GArc (Arc_after backward_arc (-1))) 0 0 0
             = (x2, y2, 1, l2)).
  { cbn [end_data]. rewrite Hs1.
    destruct (Arc.circle _ 0 0 0) as [[p0 x0] y0].
    replace (0 + 1) with 1 by ring. eauto. }
  destruct H1 as (x1 & y1 & l1 & H1). destruct H2 as (x2 & y2 & l2 & H2).
  exists x1, y1, l1, (GArc (Arc_after backward_arc (-1))), x2, y2, l2,
    (GArc (Arc_after (Arc_after backward_arc (-1)) 1)).
  split; [|split; [|split; [|split]]].
  - unfold Arc.__init__. destruct (Req_dec_T 1 0); [lra|reflexivity].
  - rewrite get_end_data_eq. cbn [settle]. rewrite Hs, H1. reflexivity.
  - unfold Arc_after, backward_arc. rewrite (truthy_true (-1)) by lra.
    intros H. discriminate.
  - rewrite get_end_data_eq. cbn [settle]. rewrite Hs1, H2. reflexivity.
  - intros H. injection H as _ _ H _. lra.
Qed.

Lemma Rabs_radius_pos (k l : R) :
  k <> 0 -> 0 < l -> Rabs (1 / Rabs k * (l * k)) = l.
Proof.
  intros Hk Hl.
  assert (Hak : Rabs k <> 0) by (apply Rabs_no_R0; exact Hk).
  assert (Hr : 0 < 1 / Rabs k).
  { apply Rdiv_lt_0_compat; [lra | apply Rabs_pos_lt; exact Hk]. }
  rewrite (Rabs_mult (1 / Rabs k) (l * k)), (Rabs_mult l k).
  rewrite (Rabs_right (1 / Rabs k)) by lra.
  rewrite (Rabs_right l) by lra. field. exact Hak.
Qed.

Lemma Arc_resweep_agree (a : Arc.t) (theta : R) :
  Arc.curvature a <> 0 -> sign_agree (GArc a) -> Arc_sweep a = Some theta ->
  Arc_resweep (Arc.curvature a) theta = theta.
Proof.
  intros Hk Hagree Hs. unfold Arc_resweep.
  destruct (Req_dec_T theta 0) as [H0|H0]; [reflexivity|].
  unfold Arc_sweep in Hs. cbn [sign_agree] in Hagree.
  destruct (truthy (Arc.length a)) eqn:Et.
  - destruct Hagree as [(l & Hl & Hpos)|[Hf _]]; [|congruence].
    rewrite Hl in Hs. injection Hs as <-.
    rewrite Rabs_radius_pos by assumption. reflexivity.
  - destruct Hagree as [(l & Hl & Hpos)|[_ (th & Ha & Hsign)]].
    + rewrite Hl in Et. apply truthy_Some_false in Et. lra.
    + assert (th = theta) by congruence. subst th.
      set (k := Arc.curvature a) in *.
      destruct (Rlt_dec k 0) as [Hneg|Hnneg].
      * assert (theta < 0) by nra.
        rewrite (Rabs_left k) by exact Hneg.
        assert (Hr : 0 < 1 / - k) by (apply Rdiv_lt_0_compat; lra).
        rewrite Rabs_left by nra.
        field. lra.
      * assert (0 < k) by lra. assert (0 < theta) by nra.
        rewrite (Rabs_right k) by lra.
        rewrite Rabs_right.
        -- field. exact Hk.
        -- apply Rle_ge. apply Rlt_le.
           apply Rmult_lt_0_compat; [apply Rdiv_lt_0_compat; lra|lra].
Qed.

Lemma ParamPoly3_after_fields (p : ParamPoly3.t) :
  ParamPoly3.set_length (ParamPoly3.length p) (ParamPoly3_after p) = p /\
  ParamPoly3.au (ParamPoly3_after p) = ParamPoly3.au p /\
  ParamPoly3.bu (ParamPoly3_after p) = ParamPoly3.bu p /\
  ParamPoly3.cu (ParamPoly3_after p) = ParamPoly3.cu p /\
  ParamPoly3.du (ParamPoly3_after p) = ParamPoly3.du p /\
  ParamPoly3.av (ParamPoly3_after p) = ParamPoly3.av p /\
  ParamPoly3.bv (ParamPoly3_after p) = ParamPoly3.bv p /\
  ParamPoly3.cv (ParamPoly3_after p) = ParamPoly3.cv p /\
  ParamPoly3.dv (ParamPoly3_after p) = ParamPoly3.dv p.
Proof.
  unfold ParamPoly3_after.
  destruct (String.eqb (ParamPoly3.prange p) "normalized");
    destruct p; cbn; repeat split.
Qed.

(** A second evaluation of an object whose signs agree repeats the first. *)
Lemma settle_again (g g1 : geom_type) :
  wf_geom g -> sign_agree g -> settle g = Ok g1 ->
  settle g1 = Ok g1 /\ forall x y h, end_data g1 x y h = end_data g x y h.
Proof.
  destruct g as [l|s|a|p]; intros Hwf Hagree H; cbn [settle] in H.
  - injection H as <-. split; reflexivity.
  - destruct (Req_dec_T (Spiral.length s) 0) as [E|E]; [discriminate|].
    injection H as <-. cbn [settle].
    destruct (Req_dec_T (Spiral.length s) 0); [contradiction|].
    split; reflexivity.
  - destruct (Arc_sweep a) as [theta|] eqn:Hs; [|discriminate].
    injection H as <-.
    pose proof (Arc_sweep_after a theta Hwf Hs) as Hs1.
    rewrite (Arc_resweep_agree a theta Hwf Hagree Hs) in Hs1.
    cbn [settle]. rewrite Hs1, Arc_after_idem. split; [reflexivity|].
    intros x y h. cbn [end_data]. rewrite Hs1, Hs, Arc_after_idem.
    reflexivity.
  - destruct (ParamPoly3_p p) as [q|] eqn:Hp; [|discriminate].
    injection H as <-. cbn [settle].
    rewrite ParamPoly3_after_p, Hp, ParamPoly3_after_idem.
    split; [reflexivity|].
    intros x y h. cbn [end_data].
    rewrite ParamPoly3_after_p, Hp, ParamPoly3_after_idem.
    destruct (ParamPoly3_after_fields p)
      as (_ & -> & -> & -> & -> & -> & -> & -> & ->).
    reflexivity.
Qed.

(** C3, amended: an evaluation never changes the fields a segment is defined
    by, and leaves a Line or a Spiral entirely unchanged; it writes the
    derived angle and length back onto an Arc and the computed length onto a
    normalized ParamPoly3, and returns the length it wrote
    ([written_back]).  For a Line, a Spiral and a ParamPoly3 a second
    evaluation from the same start pose returns the same result and changes
    nothing more. *)
Theorem evaluation_effects (g g' : geom_type) (x y h : R) (d : EndData) :
  get_end_data x y h g = (Ok d, g') ->
  same_inputs g g' /\
  written_back g g' d /\
  (not_arc g -> get_end_data x y h g' = (Ok d, g')).
Proof.
  intros H. rewrite get_end_data_eq in H.
  destruct (settle g) as [g1|] eqn:Hs; [|discriminate].
  injection H as <- <-. split; [|split].
  - destruct g as [l|s|a|p]; cbn [settle] in Hs.
    + injection Hs as <-. reflexivity.
    + destruct (Req_dec_T _ _); [discriminate|]. injection Hs as <-.
      reflexivity.
    + destruct (Arc_sweep a); [|discriminate]. injection Hs as <-.
      reflexivity.
    + destruct (ParamPoly3_p p); [|discriminate]. injection Hs as <-.
      cbn [same_inputs]. apply ParamPoly3_after_fields.
  - destruct g as [l|s|a|p]; cbn [settle] in Hs.
    + injection Hs as <-. reflexivity.
    + destruct (Req_dec_T _ _); [discriminate|]. injection Hs as <-.
      reflexivity.
    + destruct (Arc_sweep a) as [theta|] eqn:Hsw; [|discriminate].
      injection Hs as <-. cbn [written_back end_data]. rewrite Hsw.
      exists theta. split; [reflexivity|]. split; [|split].
      * unfold Arc_sweep in Hsw.
        destruct (truthy (Arc.length a)); [|exact Hsw].
        destruct (Arc.length a) as [l|]; [|discriminate].
        exists l. split; [reflexivity|congruence].
      * reflexivity.
      * destruct (Arc.circle _ x y h) as [[phi_0 x_0] y_0]. reflexivity.
    + destruct (ParamPoly3_p p) as [q|] eqn:Hp; [|discriminate].
      injection Hs as <-. cbn [written_back end_data].
      split; [|reflexivity].
      unfold ParamPoly3_after.
      destruct (String.eqb (ParamPoly3.prange p) "normalized"); reflexivity.
  - intros Hna.
    assert (Hwf : wf_geom g) by (destruct g; try exact I; contradiction).
    assert (Hagree : sign_agree g)
      by (destruct g; try exact I; contradiction).
    destruct (settle_again g g1 Hwf Hagree Hs) as [Hfix Hsame].
    rewrite get_end_data_eq, Hfix, Hsame. reflexivity.
Qed.

(** ** Degenerate spirals in exact arithmetic *)

Lemma pose_within_refl (eps : R) (p : R * R * R) :
  0 <= eps -> pose_within eps p p.
Proof.
  intros H. unfold pose_within.
  replace (fst (fst p) - fst (fst p)) with 0 by ring.
  replace (snd (fst p) - snd (fst p)) with 0 by ring.
  replace (snd p - snd p) with 0 by ring.
  rewrite Rabs_R0. auto.
Qed.

Lemma EulerSpiral_calc_line (s x y h : R) :
  EulerSpiral.calc {| EulerSpiral._gamma := 0 |} s x y 0 h
  = (x + s * cos h, y + s * sin h, h).
Proof.
  unfold EulerSpiral.calc. cbn [EulerSpiral._gamma].
  destruct (Req_dec_T 0 0) as [_|H]; [|contradiction].
  unfold Cplx.add, Cplx.scale, Cplx.expj, Cplx.of_real, Cplx.j, Cplx.real,
    Cplx.imag. cbn [fst snd].
  f_equal; [f_equal|]; field.
Qed.

Lemma EulerSpiral_calc_arc (k s x y h : R) :
  k <> 0 ->
  EulerSpiral.calc {| EulerSpiral._gamma := 0 |} s x y k h
  = (x + (sin (h + k * s) - sin h) / k,
     y + (cos h - cos (h + k * s)) / k,
     h + k * s).
Proof.
  intros Hk. unfold EulerSpiral.calc. cbn [EulerSpiral._gamma].
  destruct (Req_dec_T 0 0) as [_|H]; [|contradiction].
  destruct (Req_dec_T k 0) as [H|_]; [contradiction|].
  unfold Cplx.add, Cplx.mul, Cplx.divr, Cplx.expj, Cplx.of_real, Cplx.j,
    Cplx.real, Cplx.imag, np.sin, np.cos. cbn [fst snd].
  rewrite sin_plus, cos_plus.
  f_equal; [f_equal|]; field; exact Hk.
Qed.

Lemma Arc_end_data_fresh (k L x y h : R) :
  k <> 0 -> L <> 0 ->
  pose_of (end_data (GArc {| Arc.length := Some L; Arc.angle := None;
                             Arc.curvature := k |}) x y h)
  = (x + (sin (h + k * L) - sin h) / k,
     y + (cos h - cos (h + k * L)) / k,
     h + k * L).
Proof.
  intros Hk HL. unfold pose_of. cbn [end_data].
  unfold Arc_sweep. cbn [Arc.length Arc.curvature Arc.angle].
  rewrite (truthy_true L HL).
  unfold Arc.circle, np.abs, np.cos, np.sin, np.pi.
  destruct (Rlt_dec k 0) as [Hneg|Hpos]; cbn [fst snd].
  - rewrite (Rabs_left k) by exact Hneg.
    replace (L * k + (h + PI / 2)) with ((h + k * L) + PI / 2) by ring.
    rewrite !cos_plus_PI2, !sin_plus_PI2.
    f_equal; [f_equal|]; field; exact Hk.
  - rewrite (Rabs_right k) by lra.
    replace (L * k + (h - PI / 2)) with ((h + k * L) - PI / 2) by ring.
    rewrite !cos_minus_PI2, !sin_minus_PI2.
    f_equal; [f_equal|]; field; exact Hk.
Qed.

Lemma Spiral_get_end_data_eq (x y h : R) (s : Spiral.t) :
  Spiral.get_end_data x y h s =
  if Req_dec_T (Spiral.length s) 0 then (Raise ZeroDivisionError, s)
  else (Ok (end_data (GSpiral s) x y h), s).
Proof.
  unfold Spiral.get_end_data, end_data,
    EulerSpiral.createFromLengthAndCurvature; run_monad.
  destruct (Req_dec_T (Spiral.length s) 0); cbn; [reflexivity|].
  destruct (EulerSpiral.calc _ _ x y _ h) as [[dx dy] t]; reflexivity.
Qed.

(** With numbers as reals: a spiral with both curvatures 0 and a length [L]
    other than zero ends at the pose at which the line of length [L] from
    the same start pose ends; a spiral with both curvatures [k <> 0] ends at
    the pose at which the arc [Arc(k, length=L)] ends.  This is a fact about
    the formulas; how far the computed binary64 poses are apart depends on
    the rounding of [np.exp], [np.sin] and [np.cos], which is not
    modelled. *)
Theorem spiral_degeneracy (L x y h : R) :
  L <> 0 ->
  (exists sd ld s' l',
      Spiral.get_end_data x y h
        {| Spiral.curvstart := 0; Spiral.curvend := 0; Spiral.length := L |}
      = (Ok sd, s') /\
      Line.get_end_data x y h {| Line.length := L |} = (Ok ld, l') /\
      pose_of sd = pose_of ld) /\
  (forall k, k <> 0 ->
     exists arc sd ad s' arc',
       Arc.__init__ k (Some L) None = Ok arc /\
       Spiral.get_end_data x y h
         {| Spiral.curvstart := k; Spiral.curvend := k; Spiral.length := L |}
       = (Ok sd, s') /\
       Arc.get_end_data x y h arc = (Ok ad, arc') /\
       pose_of sd = pose_of ad /\
       pose_within (/ 10 ^ 9) (pose_of sd) (pose_of ad)).
Proof.
  intros HL. split.
  - rewrite Spiral_get_end_data_eq. cbn [Spiral.length].
    destruct (Req_dec_T L 0) as [|_]; [contradiction|].
    eexists _, _, _, _. split; [reflexivity|]. split; [reflexivity|].
    unfold pose_of. cbn [end_data Spiral.curvstart Spiral.curvend Spiral.length].
    replace (1 * (0 - 0) / L) with 0 by (field; exact HL).
    rewrite EulerSpiral_calc_line. cbn [fst Line.length].
    rewrite (Rplus_comm x), (Rplus_comm y). reflexivity.
  - intros k Hk.
    rewrite Spiral_get_end_data_eq. cbn [Spiral.length].
    destruct (Req_dec_T L 0) as [|_]; [contradiction|].
    set (arc := {| Arc.length := Some L; Arc.angle := None;
                   Arc.curvature := k |}).
    assert (Hsweep : Arc_sweep arc = Some (L * k)).
    { unfold Arc_sweep, arc. cbn [Arc.length Arc.curvature].
      rewrite (truthy_true L HL). reflexivity. }
    assert (Heq : pose_of (end_data
                    (GSpiral {| Spiral.curvstart := k; Spiral.curvend := k;
                                Spiral.length := L |}) x y h)
                  = pose_of (end_data (GArc arc) x y h)).
    { unfold arc. rewrite (Arc_end_data_fresh k L x y h Hk HL).
      unfold pose_of.
      cbn [end_data Spiral.curvstart Spiral.curvend Spiral.length].
      replace (1 * (k - k) / L) with 0 by (field; exact HL).
      rewrite (EulerSpiral_calc_arc k L x y h Hk). reflexivity. }
    exists arc. eexists _, _, _, _.
    split; [|split; [reflexivity|split; [|split]]].
    + unfold Arc.__init__. destruct (Req_dec_T k 0); [contradiction|].
      reflexivity.
    + rewrite Arc_get_end_data_eq, Hsweep. reflexivity.
    + exact Heq.
    + rewrite Heq. apply pose_within_refl.
      apply Rlt_le. apply Rinv_0_lt_compat. apply pow_lt. lra.
Qed.

(** ** Segments that follow the data model can be evaluated *)

Lemma Line_can_settle (l : Line.t) : can_settle (GLine l).
Proof.
  split; [exact I|]. exists (GLine l), (Line.length l).
  split; reflexivity.
Qed.

Lemma Spiral_can_settle (s : Spiral.t) :
  Spiral.length s <> 0 -> can_settle (GSpiral s).
Proof.
  intros H. split; [exact I|]. exists (GSpiral s), (Spiral.length s).
  cbn [settle]. destruct (Req_dec_T (Spiral.length s) 0); [contradiction|].
  split; [reflexivity|]. intros x y h. cbn [end_data].
  destruct (EulerSpiral.calc _ _ x y _ h) as [[dx dy] t]. reflexivity.
Qed.

Lemma Arc_can_settle (a : Arc.t) (theta : R) :
  Arc.curvature a <> 0 -> Arc_sweep a = Some theta -> theta <> 0 ->
  can_settle (GArc a).
Proof.
  intros Hk Hs Ht. split; [exact Hk|].
  exists (GArc (Arc_after a theta)),
    (Rabs (1 / Rabs (Arc.curvature a) * theta)).
  cbn [settle]. rewrite Hs. split; [reflexivity|].
  intros x y h. cbn [end_data]. rewrite Hs.
  destruct (Arc.circle (Arc.curvature a) x y h) as [[p0 x0] y0].
  unfold length_of, Arc_after. cbn [snd Arc.length].
  rewrite (truthy_true theta Ht). reflexivity.
Qed.

Lemma ParamPoly3_can_settle (p : ParamPoly3.t) :
  ParamPoly3.prange p = "normalized"%string \/ ParamPoly3.length p <> None ->
  can_settle (GParamPoly3 p).
Proof.
  intros H. split; [exact I|].
  assert (Hp : exists q, ParamPoly3_p p = Some q).
  { unfold ParamPoly3_p. destruct H as [->|H]; [cbn; eauto|].
    destruct (String.eqb _ _); [eauto|].
    destruct (ParamPoly3.length p); [eauto|contradiction]. }
  destruct Hp as [q Hp].
  assert (Hl : exists l, ParamPoly3.length (ParamPoly3_after p) = Some l).
  { unfold ParamPoly3_after. destruct H as [->|H]; [cbn; eauto|].
    destruct (String.eqb _ _); [cbn; eauto|].
    destruct (ParamPoly3.length p); [eauto|contradiction]. }
  destruct Hl as [l Hl].
  exists (GParamPoly3 (ParamPoly3_after p)), l.
  cbn [settle]. rewrite Hp. split; [reflexivity|].
  intros x y h. unfold length_of. cbn [end_data snd]. exact Hl.
Qed.

Lemma Line_evaluable (l : Line.t) : evaluable (GLine l).
Proof. apply evaluable_can_settle, Line_can_settle. Qed.

Lemma Spiral_evaluable (s : Spiral.t) :
  Spiral.length s <> 0 -> evaluable (GSpiral s).
Proof. intros H. apply evaluable_can_settle, Spiral_can_settle, H. Qed.

(** An arc with a curvature and a length other than zero. *)
Lemma Arc_length_evaluable (a : Arc.t) (l : R) :
  Arc.curvature a <> 0 -> Arc.length a = Some l -> l <> 0 ->
  evaluable (GArc a).
Proof.
  intros Hk Hl Hne. apply evaluable_can_settle.
  apply (Arc_can_settle a (l * Arc.curvature a)).
  - exact Hk.
  - unfold Arc_sweep. rewrite Hl, (truthy_true l Hne). reflexivity.
  - intros H. apply Rmult_integral in H as [H|H]; contradiction.
Qed.

(** An arc with a curvature other than zero, no length and a sweep angle
    other than zero. *)
Lemma Arc_angle_evaluable (a : Arc.t) (theta : R) :
  Arc.curvature a <> 0 -> Arc.length a = None -> Arc.angle a = Some theta ->
  theta <> 0 -> evaluable (GArc a).
Proof.
  intros Hk Hl Ha Hne. apply evaluable_can_settle.
  apply (Arc_can_settle a theta).
  - exact Hk.
  - unfold Arc_sweep. rewrite Hl. cbn. exact Ha.
  - exact Hne.
Qed.

Lemma ParamPoly3_evaluable (p : ParamPoly3.t) :
  ParamPoly3.prange p = "normalized"%string \/ ParamPoly3.length p <> None ->
  evaluable (GParamPoly3 p).
Proof. intros H. apply evaluable_can_settle, ParamPoly3_can_settle, H. Qed.

(** The constructors build objects that satisfy [wf_geom]. *)
Lemma construct_wf (c : ctor_call) (g : geom_type) :
  construct c = Ok g -> wf_geom g.
Proof.
  destruct c as [l|cs ce l|k l a|au bu cu du av bv cv dv prange l]; cbn.
  - intros H. injection H as <-. exact I.
  - intros H. injection H as <-. exact I.
  - unfold Arc.__init__.
    destruct l, a; cbn; try discriminate;
      destruct (Req_dec_T k 0); cbn; try discriminate;
      intros H; injection H as <-; assumption.
  - unfold ParamPoly3.__init__.
    destruct (String.eqb prange "arcLength"), l; cbn; try discriminate;
      intros H; injection H as <-; exact I.
Qed.

(** ** A road of a line and an arc *)

Lemma road_store_wf : Forall wf_geom road_store.
Proof.
  repeat constructor. cbn. lra.
Qed.

Lemma road_settles : raw_settles road_store (PlanView._raw_geometries road).
Proof.
  intros r [<-|[<-|[]]].
  - eexists. split; [reflexivity|]. apply Line_can_settle.
  - eexists. split; [reflexivity|].
    apply (Arc_can_settle _ (PI / 2)).
    + cbn. lra.
    + reflexivity.
    + pose proof PI_RGT_0. lra.
Qed.

(** The road can be finalized. *)
Lemma road_finalized :
  exists sigma' self',
    PlanView.adjust_geometires (road_store, road) = (Ok tt, (sigma', self')) /\
    List.length (PlanView._adjusted_geometries self') = 2%nat.
Proof.
  destruct (adjust_loop_progress 2 0 road_store road road_settles)
    as (sigma' & self' & Hrun & _ & _ & _ & Hlen).
  - cbn. lia.
  - left. reflexivity.
  - exists sigma', self'. split; [exact Hrun|exact Hlen].
Qed.

(** ** The theorems at concrete inputs *)

(** [pose_continuity] on the finalized road. *)
Lemma pose_continuity_witness :
  exists sigma' self' G G' x' y' h' l,
    PlanView.adjust_geometires (road_store, road) = (Ok tt, (sigma', self')) /\
    nth_error (PlanView._adjusted_geometries self') 0 = Some G /\
    nth_error (PlanView._adjusted_geometries self') 1 = Some G' /\
    _Geometry.get_end_data G sigma' = (Ok (x', y', h', l), sigma') /\
    x' = _Geometry.x G' /\ y' = _Geometry.y G' /\ h' = _Geometry.heading G'.
Proof.
  destruct road_finalized as (sigma' & self' & Hrun & Hlen).
  destruct (adjust_geometires_chain _ _ _ _ road_store_wf Hrun)
    as [_ _ _ (gs & Hadj & _ & _ & _ & Hnth)].
  cbn [fst snd] in Hadj, Hnth.
  destruct (PlanView._adjusted_geometries self') as [|G [|G' rest]] eqn:E;
    try discriminate.
  assert (H0 : nth_error (PlanView._adjusted_geometries self') 0 = Some G)
    by (rewrite E; reflexivity).
  assert (H1 : nth_error (PlanView._adjusted_geometries self') 1 = Some G')
    by (rewrite E; reflexivity).
  assert (Hline : exists g,
    nth_error road_store (_Geometry.geom_type G) = Some g /\ not_arc g).
  { change (G :: G' :: rest = gs) in Hadj. subst gs.
    destruct (Hnth 0%nat G eq_refl) as [Href _].
    change (Some 0%nat = Some (_Geometry.geom_type G)) in Href.
    injection Href as <-. eexists. split; [reflexivity|exact I]. }
  destruct (pose_continuity road_store sigma' road self' 0 G G'
              road_store_wf eq_refl Hrun H0 H1 Hline)
    as (x' & y' & h' & l & Hget & Hx & Hy & Hh & _).
  exists sigma', self', G, G', x', y', h', l.
  repeat split; try assumption. apply Hh. reflexivity.
Defined.

(** [arc_length_chain] on the finalized road. *)
Lemma arc_length_chain_witness :
  exists sigma' self' G G' l,
    PlanView.adjust_geometires (road_store, road) = (Ok tt, (sigma', self')) /\
    nth_error (PlanView._adjusted_geometries self') 0 = Some G /\
    nth_error (PlanView._adjusted_geometries self') 1 = Some G' /\
    _Geometry.length G = Some l /\
    _Geometry.s G + l = _Geometry.s G' /\
    py_sum (map _Geometry.length (PlanView._adjusted_geometries self')) 0
    = Ok (PlanView.get_total_length self').
Proof.
  destruct road_finalized as (sigma' & self' & Hrun & Hlen).
  destruct (PlanView._adjusted_geometries self') as [|G [|G' rest]] eqn:E;
    try discriminate.
  assert (H0 : nth_error (PlanView._adjusted_geometries self') 0 = Some G)
    by (rewrite E; reflexivity).
  assert (H1 : nth_error (PlanView._adjusted_geometries self') 1 = Some G')
    by (rewrite E; reflexivity).
  destruct (arc_length_chain road_store sigma' road self'
              road_store_wf eq_refl eq_refl Hrun) as [Hstep Hsum].
  destruct (Hstep 0%nat G G' H0 H1) as (l & Hl & Hs).
  exists sigma', self', G, G', l.
  repeat split; assumption.
Defined.

(** [second_finalization_appends] on the finalized road. *)
Lemma second_finalization_witness :
  exists sigma1 self1 sigma2 self2 gs,
    PlanView.adjust_geometires (road_store, road) = (Ok tt, (sigma1, self1)) /\
    PlanView.adjust_geometires (sigma1, self1) = (Ok tt, (sigma2, self2)) /\
    PlanView._adjusted_geometries self2
    = PlanView._adjusted_geometries self1 ++ gs /\
    map _Geometry.geom_type gs = [0; 1]%nat /\
    map _Geometry.geom_type (PlanView._adjusted_geometries self1) = [0; 1]%nat.
Proof.
  destruct road_finalized as (sigma1 & self1 & Hrun & _).
  destruct (second_finalization_appends road_store sigma1 road self1
              road_store_wf eq_refl Hrun)
    as (sigma2 & self2 & gs & Hrun2 & Happ & Hgs & Hfirst).
  exists sigma1, self1, sigma2, self2, gs. repeat split; assumption.
Defined.



(** [falsy_overrides_ignored] for the headings 0 and [None]. *)
Lemma falsy_overrides_witness :
  PlanView._overridden_headings
    (add_all [(0%nat, Some 0); (1%nat, None)] (PlanView.__init__ 0 0 0)) = [] /\
  PlanView.adjust_geometires
    (road_store,
     add_all [(0%nat, Some 0); (1%nat, None)] (PlanView.__init__ 0 0 0))
  = PlanView.adjust_geometires (road_store, road).
Proof.
  assert (Hf : Forall (fun c : ref * value => truthy (snd c) = false)
                 [(0%nat, Some 0); (1%nat, None)]).
  { repeat constructor. cbn [snd]. apply truthy_Some_false. reflexivity. }
  destruct (falsy_overrides_ignored [(0%nat, Some 0); (1%nat, None)]
              (PlanView.__init__ 0 0 0) 0 0 0 road_store Hf)
    as (_ & _ & Hnil & Hsame).
  split; [exact Hnil|exact Hsame].
Defined.

Lemma right_turn_sweep : Arc_sweep right_turn = Some (1 * -1).
Proof.
  unfold Arc_sweep, right_turn. cbn [Arc.length Arc.curvature].
  rewrite (truthy_true 1) by lra. reflexivity.
Qed.

(** [Arc_end_pose] for the right turn from the pose (0, 0, 0). *)
Lemma Arc_end_pose_witness :
  exists x' y' h' l a' x_0 y_0 sweep,
    Arc.get_end_data 0 0 0 right_turn = (Ok (x', y', h', l), a') /\
    centre (Arc.circle (-1) 0 0 0) = (x_0, y_0) /\
    x_0 = 0 + 1 / Rabs (-1) * cos (0 - PI / 2) /\
    y_0 = 0 + 1 / Rabs (-1) * sin (0 - PI / 2) /\
    Arc.angle a' = Some sweep /\
    h' = 0 + sweep /\
    x' = x_0 + (cos sweep * (0 - x_0) - sin sweep * (0 - y_0)) /\
    y' = y_0 + (sin sweep * (0 - x_0) + cos sweep * (0 - y_0)).
Proof.
  assert (Hrun : Arc.get_end_data 0 0 0 right_turn
                 = (Ok (fst (fst (fst (end_data (GArc right_turn) 0 0 0))),
                        snd (fst (fst (end_data (GArc right_turn) 0 0 0))),
                        snd (fst (end_data (GArc right_turn) 0 0 0)),
                        snd (end_data (GArc right_turn) 0 0 0)),
                    Arc_after right_turn (1 * -1))).
  { rewrite Arc_get_end_data_eq, right_turn_sweep.
    destruct (end_data (GArc right_turn) 0 0 0) as [[[? ?] ?] ?].
    reflexivity. }
  destruct (Arc_end_pose right_turn _ 0 0 0 _ _ _ _ Hrun)
    as (Hneg & _ & sweep & Hang & Hh & Hx & Hy).
  cbn [Arc.curvature right_turn] in Hneg, Hx, Hy.
  destruct Hneg as [Hx0 Hy0]; [lra|].
  eexists _, _, _, _, _, _, _, sweep.
  split; [exact Hrun|].
  split; [apply surjective_pairing|].
  repeat split; assumption.
Defined.

(** [evaluation_effects] for the parabola: the length is written onto the
    object, and the second evaluation repeats the first. *)
Lemma evaluation_effects_witness :
  exists d g',
    get_end_data 0 0 0 (GParamPoly3 parabola) = (Ok d, g') /\
    same_inputs (GParamPoly3 parabola) g' /\
    written_back (GParamPoly3 parabola) g' d /\
    get_end_data 0 0 0 g' = (Ok d, g').
Proof.
  assert (Hrun : get_end_data 0 0 0 (GParamPoly3 parabola)
                 = (Ok (end_data (GParamPoly3 parabola) 0 0 0),
                    GParamPoly3 (ParamPoly3_after parabola))).
  { rewrite get_end_data_eq. reflexivity. }
  destruct (evaluation_effects _ _ 0 0 0 _ Hrun) as (Hsame & Hback & Hagain).
  eexists _, _. split; [exact Hrun|]. split; [exact Hsame|].
  split; [exact Hback|]. apply Hagain. exact I.
Defined.

(** [spiral_degeneracy] for the length 10 and the curvature 1/10. *)
Lemma spiral_degeneracy_witness :
  (exists sd ld s' l',
      Spiral.get_end_data 0 0 0
        {| Spiral.curvstart := 0; Spiral.curvend := 0; Spiral.length := 10 |}
      = (Ok sd, s') /\
      Line.get_end_data 0 0 0 {| Line.length := 10 |} = (Ok ld, l') /\
      pose_of sd = pose_of ld) /\
  (exists arc sd ad s' arc',
      Arc.__init__ (1 / 10) (Some 10) None = Ok arc /\
      Spiral.get_end_data 0 0 0
        {| Spiral.curvstart := 1 / 10; Spiral.curvend := 1 / 10;
           Spiral.length := 10 |}
      = (Ok sd, s') /\
      Arc.get_end_data 0 0 0 arc = (Ok ad, arc') /\
      pose_of sd = pose_of ad /\
      pose_within (/ 10 ^ 9) (pose_of sd) (pose_of ad)).
Proof.
  assert (H10 : 10 <> 0) by lra.
  destruct (spiral_degeneracy 10 0 0 0 H10) as [Hline Harc].
  split; [exact Hline|]. apply Harc. lra.
Defined.

(** ** Heading overrides break the continuity of the heading (C4) *)

Lemma turning_road_eq :
  turning_road =
  {| PlanView.present_x := 0; PlanView.present_y := 0;
     PlanView.present_h := 0; PlanView.present_s := 0;
     PlanView._raw_geometries := [0; 1]%nat;
     PlanView._adjusted_geometries := [];
     PlanView._overridden_headings := [1; 2] |}.
Proof.
  unfold turning_road, PlanView.add_geometry. cbn.
  destruct (Req_dec_T 1 0); [lra|]. destruct (Req_dec_T 2 0); [lra|].
  reflexivity.
Qed.

(** C4 as stated fails: after finalizing [turning_road] the first geometry
    ends with the heading 1 and the second one starts with the heading 2. *)
Lemma pose_continuity_counterexample :
  exists sigma' self' G G' x' y' h' l,
    PlanView.adjust_geometires (line_store, turning_road)
    = (Ok tt, (sigma', self')) /\
    PlanView._adjusted_geometries self' = [G; G'] /\
    _Geometry.get_end_data G sigma' = (Ok (x', y', h', l), sigma') /\
    h' = 1 /\ _Geometry.heading G' = 2 /\
    h' <> _Geometry.heading G'.
Proof.
  rewrite turning_road_eq.
  unfold PlanView.adjust_geometires, bind at 1, PlanView.self_.
  cbn [snd PlanView._raw_geometries List.length seq].
  rewrite for_each_cons, adjust_step_eq.
  cbn [step_heading PlanView._overridden_headings List.length Nat.ltb Nat.leb
         nth_error PlanView._raw_geometries line_store settle end_data
         Line.length update PlanView.present_x PlanView.present_y
         PlanView.present_s PlanView.present_h PlanView.set_present_h
         PlanView.set_present_pose PlanView.set_present_s
         PlanView.append_adjusted PlanView._adjusted_geometries app].
  rewrite for_each_cons, adjust_step_eq.
  cbn [step_heading PlanView._overridden_headings List.length Nat.ltb Nat.leb
         nth_error PlanView._raw_geometries line_store settle end_data
         Line.length update PlanView.present_x PlanView.present_y
         PlanView.present_s PlanView.present_h PlanView.set_present_h
         PlanView.set_present_pose PlanView.set_present_s
         PlanView.append_adjusted PlanView._adjusted_geometries app].
  cbn [for_each]. unfold ret.
  eexists _, _, _, _, _, _, _, _.
  split; [reflexivity|]. cbn [PlanView._adjusted_geometries].
  split; [reflexivity|].
  split; [|split; [|split]].
  - unfold _Geometry.get_end_data. rewrite at_ref_get_end_data.
    cbn [new_geometry _Geometry.geom_type _Geometry.x _Geometry.y
           _Geometry.heading nth_error settle end_data update]. reflexivity.
  - reflexivity.
  - reflexivity.
  - cbn [new_geometry _Geometry.heading]. lra.
Qed.

(** ** The scenarios of the specification *)

(** The end heading the code computes for a ParamPoly3: the angle of
    [(bu + cu p + du p^2, bv + cv p + dv p^2)], with [p = 1] in normalized
    mode and [p = length] otherwise. *)
Lemma ParamPoly3_end_heading (self self' : ParamPoly3.t)
  (x y h x' y' h' : R) (l : value) :
  ParamPoly3.get_end_data x y h self = (Ok (x', y', h', l), self') ->
  exists p,
    ParamPoly3_p self = Some p /\
    h' = h + np.arctan2
               (ParamPoly3.bv self + ParamPoly3.cv self * p
                + ParamPoly3.dv self * p ^ 2)
               (ParamPoly3.bu self + ParamPoly3.cu self * p
                + ParamPoly3.du self * p ^ 2).
Proof.
  rewrite ParamPoly3_get_end_data_eq.
  destruct (ParamPoly3_p self) as [p|] eqn:Hp; [|discriminate].
  cbn [end_data]. rewrite Hp. intros H. injection H as _ _ <- _ _.
  exists p. split; reflexivity.
Qed.

(** Scenario 1: [Line(10)] from the pose (0, 0, 0) ends at (10, 0, 0) and
    has the length 10. *)
Example scenario_line :
  exists x y h self',
    Line.get_end_data 0 0 0 {| Line.length := 10 |}
    = (Ok (x, y, h, Some 10), self') /\
    x = 10 /\ y = 0 /\ h = 0.
Proof.
  eexists _, _, _, _. split; [reflexivity|].
  unfold np.cos, np.sin. rewrite cos_0, sin_0. cbn [Line.length].
  repeat split; ring.
Qed.

(** Scenario 2: [Arc(0.1, length=10)] from the pose (0, 0, 0) sweeps 1 rad
    on a circle of radius 10: it ends at (10 sin 1, 10 (1 - cos 1)) with the
    heading 1. *)
Example scenario_arc :
  exists arc d arc',
    Arc.__init__ (1 / 10) (Some 10) None = Ok arc /\
    Arc.get_end_data 0 0 0 arc = (Ok d, arc') /\
    pose_of d = (10 * sin 1, 10 * (1 - cos 1), 1) /\
    Arc.angle arc' = Some 1.
Proof.
  assert (Hk : 1 / 10 <> 0) by lra. assert (HL : 10 <> 0) by lra.
  eexists _, _, _. split; [|split; [|split]].
  - unfold Arc.__init__. destruct (Req_dec_T (1 / 10) 0); [lra|reflexivity].
  - rewrite Arc_get_end_data_eq. unfold Arc_sweep.
    cbn [Arc.length Arc.curvature]. rewrite (truthy_true 10 HL). reflexivity.
  - rewrite (Arc_end_data_fresh (1 / 10) 10 0 0 0 Hk HL).
    replace (0 + 1 / 10 * 10) with 1 by field. rewrite sin_0, cos_0.
    replace (0 + (sin 1 - 0) / (1 / 10)) with (10 * sin 1) by field.
    replace (0 + (1 - cos 1) / (1 / 10)) with (10 * (1 - cos 1)) by field.
    reflexivity.
  - cbn [Arc_after Arc.angle]. f_equal. field.
Qed.

Lemma integral_RiemannInt (f : R -> R) (a b : R)
  (pr : Riemann_integrable f a b) :
  integral f a b = RiemannInt pr.
Proof.
  unfold integral.
  assert (H : exists v, exists pr' : Riemann_integrable f a b,
               RiemannInt pr' = v) by (exists (RiemannInt pr), pr; reflexivity).
  apply (epsilon_spec (inhabits 0)) in H. destruct H as [pr' H].
  rewrite <- H. apply RiemannInt_P5.
Qed.

Lemma integral_const (c a b : R) : integral (fun _ => c) a b = c * (b - a).
Proof.
  change (fun _ : R => c) with (fct_cte c).
  rewrite (integral_RiemannInt (fct_cte c) a b (RiemannInt_P14 a b c)).
  apply RiemannInt_P15.
Qed.

(** Scenario 4: a normalized ParamPoly3 with [bu = 1] and all other
    coefficients zero has the length 1. *)
Example scenario_parampoly3 :
  exists d self',
    ParamPoly3.get_end_data 0 0 0
      {| ParamPoly3.au := 0; ParamPoly3.bu := 1;
         ParamPoly3.cu := 0; ParamPoly3.du := 0;
         ParamPoly3.av := 0; ParamPoly3.bv := 0;
         ParamPoly3.cv := 0; ParamPoly3.dv := 0;
         ParamPoly3.prange := "normalized";
         ParamPoly3.length := None |}
    = (Ok d, self') /\
    length_of d = Some 1.
Proof.
  rewrite ParamPoly3_get_end_data_eq. cbn [ParamPoly3_p ParamPoly3.prange].
  unfold ParamPoly3_p. cbn [ParamPoly3.prange String.eqb Ascii.eqb Bool.eqb].
  eexists _, _. split; [reflexivity|].
  unfold length_of. cbn [end_data snd]. unfold ParamPoly3_after.
  cbn [ParamPoly3.prange String.eqb Ascii.eqb Bool.eqb ParamPoly3.set_length
         ParamPoly3.length].
  f_equal.
  replace (ParamPoly3._integrand _) with (fun _ : R => 1).
  - rewrite integral_const. ring.
  - apply FunctionalExtensionality.functional_extensionality. intros p.
    unfold ParamPoly3._integrand, np.sqrt.
    cbn [ParamPoly3.bu ParamPoly3.bv ParamPoly3.cu ParamPoly3.cv
           ParamPoly3.du ParamPoly3.dv].
    match goal with
    | |- _ = sqrt ?e => replace e with 1 by ring
    end.
    symmetry. apply sqrt_1.
Qed.

(** Scenario 3: the plan view of [Line(5)] and [Arc(0.2, angle=pi/2)] from
    the pose (0, 0, 0) has the total length 5 + (pi/2)/0.2 and ends with the
    heading pi/2. *)
Example scenario_planview :
  let run := PlanView.adjust_geometires (road_store, road) in
  fst run = Ok tt /\
  PlanView.get_total_length (snd (snd run)) = 5 + PI / 2 / (1 / 5) /\
  PlanView.present_h (snd (snd run)) = PI / 2 /\
  List.length (PlanView._adjusted_geometries (snd (snd run))) = 2%nat.
Proof.
  set (a0 := {| Arc.length := None; Arc.angle := Some (PI / 2);
                Arc.curvature := 1 / 5 |}).
  set (a1 := Arc_after a0 (PI / 2)).
  assert (Hpi : PI / 2 <> 0) by (pose proof PI_RGT_0; lra).
  assert (Hk : Arc.curvature a0 <> 0) by (cbn; lra).
  assert (Hsw0 : Arc_sweep a0 = Some (PI / 2)) by reflexivity.
  assert (Hagree : sign_agree (GArc a0)).
  { right. split; [reflexivity|]. exists (PI / 2). split; [reflexivity|].
    cbn. pose proof PI_RGT_0. nra. }
  assert (Hsw1 : Arc_sweep a1 = Some (PI / 2)).
  { unfold a1. rewrite (Arc_sweep_after a0 _ Hk Hsw0).
    rewrite (Arc_resweep_agree a0 _ Hk Hagree Hsw0). reflexivity. }
  assert (Hs0 : settle (GArc a0) = Ok (GArc a1)).
  { cbn [settle]. rewrite Hsw0. reflexivity. }
  assert (Hs1 : settle (GArc a1) = Ok (GArc a1)).
  { cbn [settle]. rewrite Hsw1. unfold a1. rewrite Arc_after_idem.
    reflexivity. }
  assert (Hd1 : forall x y h,
             snd (fst (end_data (GArc a1) x y h)) = h + PI / 2 /\
             snd (end_data (GArc a1) x y h) = Some (PI / 2 / (1 / 5))).
  { intros x y h. cbn [end_data]. rewrite Hsw1.
    destruct (Arc.circle (Arc.curvature a1) x y h) as [[p0 x0] y0].
    cbn [fst snd]. split; [reflexivity|].
    unfold a1. rewrite Arc_after_idem. unfold Arc_after.
    cbn [Arc.length Arc.curvature a0]. rewrite (truthy_true _ Hpi).
    f_equal. rewrite (Rabs_right (1 / 5)) by lra.
    rewrite Rabs_right by (pose proof PI_RGT_0; lra). field. }
  cbv zeta.
  remember (PlanView.adjust_geometires (road_store, road)) as run eqn:Hrun.
  change road with
    {| PlanView.present_x := 0; PlanView.present_y := 0;
       PlanView.present_h := 0; PlanView.present_s := 0;
       PlanView._raw_geometries := [0; 1]%nat;
       PlanView._adjusted_geometries := [];
       PlanView._overridden_headings := [] |} in Hrun.
  unfold PlanView.adjust_geometires, bind at 1, PlanView.self_ in Hrun.
  cbn [snd PlanView._raw_geometries List.length seq] in Hrun.
  rewrite for_each_cons, adjust_step_eq in Hrun.
  cbn [step_heading PlanView._overridden_headings List.length Nat.ltb Nat.leb
         nth_error PlanView._raw_geometries road_store settle end_data
         Line.length update PlanView.present_x PlanView.present_y
         PlanView.present_s PlanView.present_h PlanView.set_present_h
         PlanView.set_present_pose PlanView.set_present_s
         PlanView.append_adjusted PlanView._adjusted_geometries app] in Hrun.
  rewrite for_each_cons, adjust_step_eq in Hrun.
  cbn [step_heading PlanView._overridden_headings List.length Nat.ltb Nat.leb
         nth_error PlanView._raw_geometries update PlanView.present_x
         PlanView.present_y PlanView.present_s PlanView.present_h
         PlanView.set_present_h PlanView.set_present_pose
         PlanView.set_present_s PlanView.append_adjusted
         PlanView._adjusted_geometries app] in Hrun.
  fold a0 in Hrun. rewrite Hs0, Hs1 in Hrun.
  match type of Hrun with
  | context [end_data (GArc a1) ?x ?y ?h] =>
      destruct (Hd1 x y h) as [Hh Hl];
      destruct (end_data (GArc a1) x y h) as [[[x' y'] h'] l']
  end.
  cbn [fst snd] in Hh, Hl. subst h' l'.
  cbn [for_each] in Hrun. unfold ret in Hrun. subst run.
  cbn [fst snd PlanView.get_total_length PlanView.present_s PlanView.present_h
         PlanView._adjusted_geometries PlanView.append_adjusted
         PlanView.set_present_s PlanView.set_present_pose List.length app].
  repeat split; ring.
Qed.

(** ** Plan views that were not finalized yet *)

(** A new plan view, after any calls of [add_geometry] and a call of
    [set_start_point], has no adjusted geometry and the arc length 0: the
    state [pose_continuity] and [arc_length_chain] start from. *)
Lemma open_plan_view (calls : list (ref * value))
  (x_start y_start h_start x0 y0 h0 : R) :
  let self :=
    PlanView.set_start_point x_start y_start h_start
      (add_all calls (PlanView.__init__ x0 y0 h0)) in
  PlanView._adjusted_geometries self = [] /\
  PlanView.present_s self = 0 /\
  PlanView._raw_geometries self = map fst calls.
Proof.
  cbv zeta. cbn [PlanView.set_start_point PlanView._adjusted_geometries
                   PlanView.present_s PlanView._raw_geometries].
  assert (H : forall pv,
    PlanView._adjusted_geometries (add_all calls pv)
    = PlanView._adjusted_geometries pv /\
    PlanView.present_s (add_all calls pv) = PlanView.present_s pv /\
    PlanView._raw_geometries (add_all calls pv)
    = PlanView._raw_geometries pv ++ map fst calls).
  { induction calls as [|c calls IH]; intros pv; cbn.
    - rewrite app_nil_r. repeat split.
    - destruct (IH (PlanView.add_geometry (fst c) (snd c) pv))
        as (H1 & H2 & H3).
      unfold add_all in *. rewrite H1, H2, H3. cbn.
      rewrite <- app_assoc. repeat split. }
  destruct (H (PlanView.__init__ x0 y0 h0)) as (H1 & H2 & H3).
  rewrite H1, H2, H3. repeat split.
Qed.

(** * Further properties of the code *)

(** ** The length of a ParamPoly3 *)

(** The polynomial under the root of [_integrand] is the squared speed
    [u'(p)^2 + v'(p)^2] of the curve, with [u'(p) = bu + 2 cu p + 3 du p^2]
    and [v'(p) = bv + 2 cv p + 3 dv p^2]. *)
Theorem integrand_is_speed (self : ParamPoly3.t) (p : R) :
  ParamPoly3._integrand self p =
  sqrt ((ParamPoly3.bu self + 2 * ParamPoly3.cu self * p
         + 3 * ParamPoly3.du self * p ^ 2) ^ 2
        + (ParamPoly3.bv self + 2 * ParamPoly3.cv self * p
           + 3 * ParamPoly3.dv self * p ^ 2) ^ 2).
Proof.
  unfold ParamPoly3._integrand, np.sqrt. f_equal. ring.
Qed.

Lemma integrand_nonneg (self : ParamPoly3.t) (p : R) :
  0 <= ParamPoly3._integrand self p.
Proof. rewrite integrand_is_speed. apply sqrt_pos. Qed.

Lemma integrand_continuity (self : ParamPoly3.t) :
  continuity (ParamPoly3._integrand self).
Proof.
  intros p.
  set (sq := fun q : R =>
    (ParamPoly3.bu self + 2 * ParamPoly3.cu self * q
     + 3 * ParamPoly3.du self * q ^ 2) ^ 2
    + (ParamPoly3.bv self + 2 * ParamPoly3.cv self * q
       + 3 * ParamPoly3.dv self * q ^ 2) ^ 2).
  assert (Hext : ParamPoly3._integrand self = comp sqrt sq).
  { apply FunctionalExtensionality.functional_extensionality. intros q.
    rewrite integrand_is_speed. reflexivity. }
  rewrite Hext. apply continuity_pt_comp.
  - apply derivable_continuous_pt. unfold sq. reg.
  - apply continuity_pt_sqrt. unfold sq.
    apply Rplus_le_le_0_compat; apply pow2_ge_0.
Qed.

Lemma integrand_integrable (self : ParamPoly3.t) :
  Riemann_integrable (ParamPoly3._integrand self) 0 1.
Proof.
  apply continuity_implies_RiemannInt; [lra|].
  intros x _. apply integrand_continuity.
Qed.

Lemma integral_nonneg (f : R -> R) (pr : Riemann_integrable f 0 1) :
  (forall x, 0 <= f x) -> 0 <= integral f 0 1.
Proof.
  intros Hf. rewrite (integral_RiemannInt f 0 1 pr).
  pose proof (RiemannInt_P19 (RiemannInt_P14 0 1 0) pr) as H.
  rewrite RiemannInt_P15 in H. rewrite Rmult_0_l in H.
  apply H; [lra|]. intros x _. unfold fct_cte. apply Hf.
Qed.

(** In normalized mode the evaluation always succeeds, and the length it
    computes, writes onto the object and returns is the integral of the
    speed over [0, 1], which is never negative. *)
Theorem normalized_length_nonneg (self : ParamPoly3.t) (x y h : R) :
  ParamPoly3.prange self = "normalized"%string ->
  exists x' y' h' l self',
    ParamPoly3.get_end_data x y h self = (Ok (x', y', h', Some l), self') /\
    ParamPoly3.length self' = Some l /\
    l = integral (ParamPoly3._integrand self) 0 1 /\
    0 <= l.
Proof.
  intros Hn. rewrite ParamPoly3_get_end_data_eq.
  unfold ParamPoly3_p. rewrite Hn. cbn [String.eqb Ascii.eqb Bool.eqb].
  cbn [end_data]. unfold ParamPoly3_after. rewrite Hn.
  cbn [String.eqb Ascii.eqb Bool.eqb ParamPoly3.set_length ParamPoly3.length].
  eexists _, _, _, _, _. split; [reflexivity|].
  split; [reflexivity|]. split; [reflexivity|].
  apply (integral_nonneg _ (integrand_integrable self)).
  apply integrand_nonneg.
Qed.

(** A normalized ParamPoly3 whose polynomials are linear (a straight
    segment) has the length of the segment, [sqrt(bu^2 + bv^2)]. *)
Theorem linear_poly_length (self self' : ParamPoly3.t)
  (x y h x' y' h' : R) (l : value) :
  ParamPoly3.prange self = "normalized"%string ->
  ParamPoly3.cu self = 0 -> ParamPoly3.du self = 0 ->
  ParamPoly3.cv self = 0 -> ParamPoly3.dv self = 0 ->
  ParamPoly3.get_end_data x y h self = (Ok (x', y', h', l), self') ->
  l = Some (sqrt (ParamPoly3.bu self ^ 2 + ParamPoly3.bv self ^ 2)) /\
  (x' - (x + (ParamPoly3.au self * cos h - ParamPoly3.av self * sin h))) ^ 2
  + (y' - (y + (ParamPoly3.au self * sin h + ParamPoly3.av self * cos h))) ^ 2
  = ParamPoly3.bu self ^ 2 + ParamPoly3.bv self ^ 2.
Proof.
  intros Hn Hcu Hdu Hcv Hdv.
  assert (Hp : ParamPoly3_p self = Some 1)
    by (unfold ParamPoly3_p; rewrite Hn; reflexivity).
  assert (Ha : ParamPoly3_after self
               = ParamPoly3.set_length
                   (Some (integral (ParamPoly3._integrand self) 0 1)) self)
    by (unfold ParamPoly3_after; rewrite Hn; reflexivity).
  rewrite ParamPoly3_get_end_data_eq, Hp. cbn [end_data]. rewrite Hp, Ha.
  cbn [ParamPoly3.set_length ParamPoly3.length].
  intros H. injection H as <- <- _ <- _. split.
  - f_equal.
    replace (ParamPoly3._integrand self)
      with (fun _ : R => sqrt (ParamPoly3.bu self ^ 2 + ParamPoly3.bv self ^ 2)).
    + rewrite integral_const. ring.
    + apply FunctionalExtensionality.functional_extensionality. intros p.
      rewrite integrand_is_speed, Hcu, Hdu, Hcv, Hdv. f_equal. ring.
  - rewrite Hcu, Hdu, Hcv, Hdv.
    pose proof (sin2_cos2 h) as Hsc. unfold Rsqr in Hsc.
    set (c := cos h) in *. set (s := sin h) in *.
    match goal with
    | |- ?lhs = _ =>
        replace lhs
          with ((ParamPoly3.bu self ^ 2 + ParamPoly3.bv self ^ 2)
                * (s * s + c * c)) by ring
    end.
    rewrite Hsc. ring.
Qed.

(** ** The start pose only moves the result *)

Ltac trig_expand :=
  repeat first
    [ rewrite cos_plus | rewrite sin_plus | rewrite cos_minus
    | rewrite sin_minus | rewrite cos_PI2 | rewrite sin_PI2
    | rewrite cos_0 | rewrite sin_0 ].

Lemma EndData_eq (x1 y1 h1 x2 y2 h2 : R) (l1 l2 : value) :
  x1 = x2 -> y1 = y2 -> h1 = h2 -> l1 = l2 ->
  (x1, y1, h1, l1) = (x2, y2, h2, l2).
Proof. intros -> -> -> ->. reflexivity. Qed.

Lemma triple_eq (x1 y1 h1 x2 y2 h2 : R) :
  x1 = x2 -> y1 = y2 -> h1 = h2 -> (x1, y1, h1) = (x2, y2, h2).
Proof. intros -> -> ->. reflexivity. Qed.

Lemma EulerSpiral_calc_moved (self : EulerSpiral.t) (s x0 y0 kappa0 theta0 : R) :
  EulerSpiral.calc self s x0 y0 kappa0 theta0 =
  let '(u, v, t) := EulerSpiral.calc self s 0 0 kappa0 0 in
  (x0 + (u * cos theta0 - v * sin theta0),
   y0 + (u * sin theta0 + v * cos theta0),
   theta0 + t).
Proof.
  unfold EulerSpiral.calc.
  destruct (Req_dec_T (EulerSpiral._gamma self) 0) as [Hg|Hg].
  - destruct (Req_dec_T kappa0 0) as [Hk|Hk].
    + unfold Cplx.add, Cplx.scale, Cplx.expj, Cplx.of_real, Cplx.j,
        Cplx.real, Cplx.imag. cbn [fst snd]. rewrite cos_0, sin_0.
      apply triple_eq; field.
    + unfold Cplx.add, Cplx.mul, Cplx.divr, Cplx.expj, Cplx.of_real, Cplx.j,
        Cplx.real, Cplx.imag. cbn [fst snd]. rewrite cos_0, sin_0.
      apply triple_eq; field; exact Hk.
  - destruct (fresnel _) as [Sa Ca]. destruct (fresnel _) as [Sb Cb].
    unfold Cplx.add, Cplx.sub, Cplx.mul, Cplx.scale, Cplx.expj, Cplx.of_real,
      Cplx.j, Cplx.real, Cplx.imag. cbn [fst snd].
    rewrite !cos_minus, !sin_minus, cos_0, sin_0.
    apply triple_eq; field; exact Hg.
Qed.

Lemma end_data_moved (g : geom_type) (x y h : R) :
  end_data g x y h = moved_to x y h (end_data g 0 0 0).
Proof.
  destruct g as [l|s|a|p]; cbn [end_data].
  - unfold moved_to. rewrite cos_0, sin_0. apply EndData_eq; try ring.
    reflexivity.
  - rewrite (EulerSpiral_calc_moved _ _ x y _ h).
    destruct (EulerSpiral.calc _ _ 0 0 _ 0) as [[u v] t]. reflexivity.
  - unfold Arc.circle, np.cos, np.sin, np.pi, moved_to.
    destruct (Rlt_dec (Arc.curvature a) 0); cbn [fst snd].
    + apply EndData_eq; try reflexivity; trig_expand; ring.
    + apply EndData_eq; try reflexivity; trig_expand; ring.
  - unfold moved_to, np.cos, np.sin. rewrite cos_0, sin_0.
    apply EndData_eq; try reflexivity; ring.
Qed.

(** For every segment and every start pose, evaluating from the start pose
    [(x, y, h)] does to the object what evaluating from (0, 0, 0) does,
    raises what it raises, and returns its result moved to [(x, y, h)]:
    the position turned by [h] and shifted by [(x, y)], the heading
    increased by [h], the same length. *)
Theorem get_end_data_moved (g : geom_type) (x y h : R) :
  get_end_data x y h g =
  match get_end_data 0 0 0 g with
  | (Ok d0, g') => (Ok (moved_to x y h d0), g')
  | (Raise e, g') => (Raise e, g')
  end.
Proof.
  rewrite !get_end_data_eq. destruct (settle g) as [g'|e]; [|reflexivity].
  rewrite (end_data_moved g x y h). reflexivity.
Qed.

(** ** Spirals *)

(** At arc length 0 the Euler spiral is at its start pose, in each of the
    three cases of [calc]. *)
Theorem EulerSpiral_calc_zero (self : EulerSpiral.t) (x0 y0 kappa0 theta0 : R) :
  EulerSpiral.calc self 0 x0 y0 kappa0 theta0 = (x0, y0, theta0).
Proof.
  unfold EulerSpiral.calc.
  destruct (Req_dec_T (EulerSpiral._gamma self) 0) as [Hg|Hg].
  - destruct (Req_dec_T kappa0 0) as [Hk|Hk].
    + unfold Cplx.add, Cplx.scale, Cplx.expj, Cplx.of_real, Cplx.j,
        Cplx.real, Cplx.imag. cbn [fst snd].
      apply triple_eq; field.
    + unfold Cplx.add, Cplx.mul, Cplx.divr, Cplx.expj, Cplx.of_real, Cplx.j,
        Cplx.real, Cplx.imag, np.sin, np.cos. cbn [fst snd].
      rewrite Rmult_0_r, sin_0, cos_0.
      apply triple_eq; field; exact Hk.
  - replace (kappa0 + EulerSpiral._gamma self * 0) with kappa0 by ring.
    destruct (fresnel _) as [Sa Ca].
    unfold Cplx.add, Cplx.sub, Cplx.mul, Cplx.scale, Cplx.expj, Cplx.of_real,
      Cplx.j, Cplx.real, Cplx.imag. cbn [fst snd].
    apply triple_eq; field.
Qed.

(** A spiral turns the heading by its length times the mean of its two
    curvatures, and returns its own length. *)
Theorem Spiral_end_heading (self self' : Spiral.t) (x y h x' y' h' : R)
  (l : value) :
  Spiral.get_end_data x y h self = (Ok (x', y', h', l), self') ->
  h' = h + (Spiral.curvstart self + Spiral.curvend self) / 2
           * Spiral.length self /\
  l = Some (Spiral.length self) /\
  Spiral.length self <> 0 /\
  self' = self.
Proof.
  rewrite Spiral_get_end_data_eq.
  destruct (Req_dec_T (Spiral.length self) 0) as [H0|H0]; [discriminate|].
  cbn [end_data]. unfold EulerSpiral.calc. cbn [EulerSpiral._gamma].
  intros H. injection H as _ _ <- <- <-.
  repeat split; try assumption. field. exact H0.
Qed.

(** ** Arcs: length and angle *)




(** ** Definitions the constructors accept and the evaluation refuses *)


(** ** Segments that continue each other *)



(** ** What finalization keeps *)

Lemma same_inputs_refl (g : geom_type) : same_inputs g g.
Proof. destruct g as [l|s|a|p]; cbn; try reflexivity. destruct p; reflexivity. Qed.

Lemma same_inputs_trans (g1 g2 g3 : geom_type) :
  same_inputs g1 g2 -> same_inputs g2 g3 -> same_inputs g1 g3.
Proof.
  destruct g1 as [l1|s1|a1|p1], g2 as [l2|s2|a2|p2], g3 as [l3|s3|a3|p3];
    cbn; try contradiction; try congruence.
  intros <- <-. destruct p3; reflexivity.
Qed.

Lemma settle_same_inputs (g g1 : geom_type) :
  settle g = Ok g1 -> same_inputs g g1.
Proof.
  destruct g as [l|s|a|p]; cbn [settle]; intros Hs.
  - injection Hs as <-. reflexivity.
  - destruct (Req_dec_T _ _); [discriminate|]. injection Hs as <-.
    reflexivity.
  - destruct (Arc_sweep a); [|discriminate]. injection Hs as <-.
    reflexivity.
  - destruct (ParamPoly3_p p); [|discriminate]. injection Hs as <-.
    cbn [same_inputs]. apply ParamPoly3_after_fields.
Qed.

Lemma Forall2_same_inputs_refl (sigma : store) : Forall2 same_inputs sigma sigma.
Proof. induction sigma; constructor; auto using same_inputs_refl. Qed.

Lemma Forall2_same_inputs_trans (s1 s2 s3 : store) :
  Forall2 same_inputs s1 s2 -> Forall2 same_inputs s2 s3 ->
  Forall2 same_inputs s1 s3.
Proof.
  intros H. revert s3. induction H as [|g1 g2 s1 s2 Hg H IH]; intros s3 H23.
  - inversion H23. constructor.
  - inversion H23 as [|g2' g3 s2' s3' Hg3 H3]; subst.
    constructor; [eapply same_inputs_trans; eassumption|auto].
Qed.

Lemma Forall2_same_inputs_update (sigma : store) (r : ref) (g0 g1 : geom_type) :
  nth_error sigma r = Some g0 -> same_inputs g0 g1 ->
  Forall2 same_inputs sigma (update sigma r g1).
Proof.
  revert r. induction sigma as [|g sigma IH]; intros [|r] H0 H1; cbn in *;
    try discriminate.
  - injection H0 as ->. constructor; [exact H1|apply Forall2_same_inputs_refl].
  - constructor; [apply same_inputs_refl|apply IH; assumption].
Qed.

Lemma Forall2_nth_error_back (s1 s2 : store) (r : ref) (g2 : geom_type) :
  Forall2 same_inputs s1 s2 -> nth_error s2 r = Some g2 ->
  exists g1, nth_error s1 r = Some g1 /\ same_inputs g1 g2.
Proof.
  intros H. revert r. induction H as [|a b s1 s2 Hab H IH]; intros [|r] Hr;
    cbn in *; try discriminate.
  - injection Hr as <-. eauto.
  - apply IH. exact Hr.
Qed.

Lemma Forall2_nth_error_forth (s1 s2 : store) (r : ref) (g1 : geom_type) :
  Forall2 same_inputs s1 s2 -> nth_error s1 r = Some g1 ->
  exists g2, nth_error s2 r = Some g2 /\ same_inputs g1 g2.
Proof.
  intros H. revert r. induction H as [|a b s1 s2 Hab H IH]; intros [|r] Hr;
    cbn in *; try discriminate.
  - injection Hr as <-. eauto.
  - apply IH. exact Hr.
Qed.

(** What one step of the loop changes, whatever its outcome. *)
Lemma adjust_step_keeps (i : nat) (sigma sigma' : store)
  (self self' : PlanView.t) (res : result unit) :
  PlanView.adjust_step i (sigma, self) = (res, (sigma', self')) ->
  PlanView._raw_geometries self' = PlanView._raw_geometries self /\
  PlanView._overridden_headings self' = PlanView._overridden_headings self /\
  Forall2 same_inputs sigma sigma' /\
  ((res = Ok tt /\
    exists G,
      PlanView._adjusted_geometries self'
      = PlanView._adjusted_geometries self ++ [G] /\
      nth_error (PlanView._raw_geometries self) i
      = Some (_Geometry.geom_type G) /\
      _Geometry.s G = PlanView.present_s self /\
      _Geometry.x G = PlanView.present_x self /\
      _Geometry.y G = PlanView.present_y self /\
      step_heading self i = Some (_Geometry.heading G) /\
      exists g0, nth_error sigma (_Geometry.geom_type G) = Some g0) \/
   ((exists e, res = Raise e) /\
    PlanView._adjusted_geometries self'
    = PlanView._adjusted_geometries self)).
Proof.
  rewrite adjust_step_eq.
  destruct (step_heading self i) as [hd|] eqn:Ehd; cbv zeta.
  2:{ intros H; injection H as <- <- <-.
      repeat split; auto using Forall2_same_inputs_refl. right. eauto. }
  remember (if (0 <? List.length (PlanView._overridden_headings self))%nat
            then PlanView.set_present_h hd self else self) as self1 eqn:Es1.
  assert (Hself1 :
    PlanView._adjusted_geometries self1 = PlanView._adjusted_geometries self /\
    PlanView._overridden_headings self1 = PlanView._overridden_headings self /\
    PlanView._raw_geometries self1 = PlanView._raw_geometries self).
  { subst self1.
    destruct (0 <? List.length (PlanView._overridden_headings self))%nat;
      repeat split. }
  destruct Hself1 as (Ha1 & Ho1 & Hr1). clear Es1.
  destruct (nth_error (PlanView._raw_geometries self) i) as [r|] eqn:Er.
  2:{ intros H; injection H as <- <- <-.
      repeat split; auto using Forall2_same_inputs_refl. right. eauto. }
  destruct (nth_error sigma r) as [g0|] eqn:E0.
  2:{ intros H; injection H as <- <- <-.
      repeat split; auto using Forall2_same_inputs_refl. right. eauto. }
  destruct (settle g0) as [g1|e0] eqn:E1.
  2:{ intros H; injection H as <- <- <-.
      repeat split; auto using Forall2_same_inputs_refl. right. eauto. }
  assert (K1 : Forall2 same_inputs sigma (update sigma r g1)).
  { eapply Forall2_same_inputs_update; [exact E0|].
    apply settle_same_inputs. exact E1. }
  destruct (settle g1) as [g2|e1] eqn:E2.
  2:{ intros H; injection H as <- <- <-.
      repeat split; auto. right. eauto. }
  assert (K2 : Forall2 same_inputs sigma (update (update sigma r g1) r g2)).
  { eapply Forall2_same_inputs_trans; [exact K1|].
    eapply Forall2_same_inputs_update;
      [eapply nth_error_update_same; exact E0|].
    apply settle_same_inputs. exact E2. }
  destruct (end_data g1 _ _ hd) as [[[x' y'] h'] [l|]];
    intros H; injection H as <- <- <-; cbn; rewrite ?Ha1, ?Ho1, ?Hr1;
    repeat split; auto.
  - left. split; [reflexivity|].
    exists (new_geometry self hd r g0). repeat split. cbn. eauto.
  - right. eauto.
Qed.

Lemma step_heading_override (self : PlanView.t) (i : nat) (hd : R) :
  step_heading self i = Some hd ->
  PlanView._overridden_headings self <> [] ->
  nth_error (PlanView._overridden_headings self) i = Some hd.
Proof.
  unfold step_heading.
  destruct (PlanView._overridden_headings self) as [|o ovr]; [contradiction|].
  cbn [List.length Nat.ltb Nat.leb]. auto.
Qed.

(** What a run of the loop changes, whatever its outcome. *)
Lemma adjust_loop_keeps (n a : nat) (sigma sigma' : store)
  (self self' : PlanView.t) (res : result unit) :
  for_each (seq a n) PlanView.adjust_step (sigma, self)
  = (res, (sigma', self')) ->
  PlanView._raw_geometries self' = PlanView._raw_geometries self /\
  PlanView._overridden_headings self' = PlanView._overridden_headings self /\
  Forall2 same_inputs sigma sigma' /\
  exists gs,
    PlanView._adjusted_geometries self'
    = PlanView._adjusted_geometries self ++ gs /\
    (res = Ok tt -> List.length gs = n) /\
    (forall e, res = Raise e -> (List.length gs < n)%nat) /\
    (forall j G, nth_error gs j = Some G ->
                 nth_error (PlanView._raw_geometries self) (a + j)
                 = Some (_Geometry.geom_type G) /\
                 (PlanView._overridden_headings self <> [] ->
                  nth_error (PlanView._overridden_headings self) (a + j)
                  = Some (_Geometry.heading G)) /\
                 exists g0, nth_error sigma (_Geometry.geom_type G) = Some g0).
Proof.
  revert a sigma sigma' self self' res.
  induction n as [|n IH]; intros a sigma sigma' self self' res Hrun.
  - cbn in Hrun. unfold ret in Hrun. injection Hrun as <- <- <-.
    repeat split; auto using Forall2_same_inputs_refl.
    exists []. rewrite app_nil_r.
    split; [reflexivity|]. split; [reflexivity|].
    split; [intros e He; discriminate|]. intros [|j] G H; discriminate.
  - cbn [seq] in Hrun. rewrite for_each_cons in Hrun.
    destruct (PlanView.adjust_step a (sigma, self))
      as [[[]|e] [sigma1 self1]] eqn:Es.
    + destruct (adjust_step_keeps _ _ _ _ _ _ Es)
        as (Hr & Ho & Hk
            & [[_ (G & Ha & Hg & _ & _ & _ & Hh & Hex)]|[[e He] _]]);
        [|discriminate].
      destruct (IH _ _ _ _ _ _ Hrun)
        as (Hr' & Ho' & Hk' & gs & Ha' & Hok & Hfail & Hnth).
      split; [congruence|]. split; [congruence|].
      split; [eapply Forall2_same_inputs_trans; eassumption|].
      exists (G :: gs).
      split; [rewrite Ha', Ha, <- app_assoc; reflexivity|].
      split; [intros E; cbn; rewrite (Hok E); reflexivity|].
      split; [intros e E; cbn; specialize (Hfail e E); lia|].
      intros [|j] G' H'; cbn in H'.
      * injection H' as <-. rewrite Nat.add_0_r. split; [exact Hg|].
        split; [apply step_heading_override; exact Hh|exact Hex].
      * rewrite <- Hr, <- Ho.
        replace (a + S j)%nat with (S a + j)%nat by lia.
        destruct (Hnth j G' H') as (H1 & H2 & g1 & H3).
        split; [exact H1|]. split; [exact H2|].
        destruct (Forall2_nth_error_back _ _ _ _ Hk H3) as (g0 & H0 & _).
        eauto.
    + injection Hrun as <- <- <-.
      destruct (adjust_step_keeps _ _ _ _ _ _ Es)
        as (Hr & Ho & Hk & [[E _]|[_ Ha]]); [discriminate|].
      repeat split; auto. exists []. rewrite app_nil_r.
      split; [exact Ha|]. split; [intros E; discriminate|].
      split; [intros e' _; cbn; lia|]. intros [|j] G H; discriminate.
Qed.



(** ** Where the first geometry starts *)

Lemma add_all_fields (calls : list (ref * value)) (pv : PlanView.t) :
  PlanView.present_x (add_all calls pv) = PlanView.present_x pv /\
  PlanView.present_y (add_all calls pv) = PlanView.present_y pv /\
  PlanView.present_h (add_all calls pv) = PlanView.present_h pv /\
  PlanView.present_s (add_all calls pv) = PlanView.present_s pv /\
  PlanView._adjusted_geometries (add_all calls pv)
  = PlanView._adjusted_geometries pv /\
  PlanView._raw_geometries (add_all calls pv)
  = PlanView._raw_geometries pv ++ map fst calls /\
  PlanView._overridden_headings (add_all calls pv)
  = PlanView._overridden_headings pv ++ recorded_headings calls.
Proof.
  revert pv. induction calls as [|[geom heading] calls IH]; intros pv.
  - cbn. rewrite !app_nil_r. repeat split.
  - cbn [add_all fold_left fst snd]. fold (add_all calls).
    destruct (IH (PlanView.add_geometry geom heading pv))
      as (Hx & Hy & Hh & Hs & Ha & Hr & Ho).
    unfold add_all in *.
    rewrite Hx, Hy, Hh, Hs, Ha, Hr, Ho.
    cbn [PlanView.add_geometry PlanView.present_x PlanView.present_y
           PlanView.present_h PlanView.present_s
           PlanView._adjusted_geometries PlanView._raw_geometries
           PlanView._overridden_headings map recorded_headings flat_map
           fst snd].
    rewrite <- app_assoc. repeat split.
    destruct heading as [hd|]; [|reflexivity].
    destruct (truthy (Some hd)); [|reflexivity].
    rewrite <- app_assoc. reflexivity.
Qed.

(** The geometry the first iteration appends starts at the present pose,
    with the first heading override in place of the present heading if there
    are overrides. *)
Lemma adjust_geometires_first (sigma sigma' : store)
  (self self' : PlanView.t) (res : result unit) (G : _Geometry.t) :
  PlanView.adjust_geometires (sigma, self) = (res, (sigma', self')) ->
  nth_error (PlanView._adjusted_geometries self')
    (List.length (PlanView._adjusted_geometries self)) = Some G ->
  _Geometry.s G = PlanView.present_s self /\
  _Geometry.x G = PlanView.present_x self /\
  _Geometry.y G = PlanView.present_y self /\
  step_heading self 0 = Some (_Geometry.heading G).
Proof.
  intros Hrun HG. unfold PlanView.adjust_geometires in Hrun.
  unfold bind at 1, PlanView.self_ in Hrun. cbn [snd] in Hrun.
  destruct (List.length (PlanView._raw_geometries self)) as [|n].
  - cbn in Hrun. unfold ret in Hrun. injection Hrun as <- <- <-.
    assert (H : nth_error (PlanView._adjusted_geometries self)
                  (List.length (PlanView._adjusted_geometries self)) = None)
      by (apply nth_error_None; lia).
    congruence.
  - cbn [seq] in Hrun. rewrite for_each_cons in Hrun.
    destruct (PlanView.adjust_step 0 (sigma, self))
      as [[[]|e] [sigma1 self1]] eqn:Es.
    + destruct (adjust_step_keeps _ _ _ _ _ _ Es)
        as (_ & _ & _
            & [[_ (G0 & Ha & _ & Hs & Hx & Hy & Hh & _)]|[[e He] _]]);
        [|discriminate].
      destruct (adjust_loop_keeps _ _ _ _ _ _ _ Hrun)
        as (_ & _ & _ & gs & Ha' & _).
      rewrite Ha', Ha, <- app_assoc in HG.
      rewrite nth_error_app2 in HG by lia.
      rewrite Nat.sub_diag in HG. cbn in HG. injection HG as <-.
      repeat split; assumption.
    + injection Hrun as <- <- <-.
      destruct (adjust_step_keeps _ _ _ _ _ _ Es)
        as (_ & _ & _ & [[E _]|[_ Ha]]); [discriminate|].
      rewrite Ha in HG.
      assert (H : nth_error (PlanView._adjusted_geometries self)
                    (List.length (PlanView._adjusted_geometries self)) = None)
        by (apply nth_error_None; lia).
      congruence.
Qed.

(** The first geometry of a plan view starts at arc length 0 and at the
    point passed to [set_start_point], or at the origin if it was not
    called: the arguments of the constructor are ignored.  Its heading is
    the start heading, unless heading overrides were recorded: then it is
    the first of them. *)
Theorem first_geometry_start (calls : list (ref * value))
  (x0 y0 h0 x_start y_start h_start : R) (sigma : store) :
  let built := add_all calls (PlanView.__init__ x0 y0 h0) in
  (forall sigma' self' res G,
      PlanView.adjust_geometires (sigma, built) = (res, (sigma', self')) ->
      nth_error (PlanView._adjusted_geometries self') 0 = Some G ->
      _Geometry.s G = 0 /\ _Geometry.x G = 0 /\ _Geometry.y G = 0 /\
      _Geometry.heading G = hd (0 : R) (recorded_headings calls)) /\
  (forall sigma' self' res G,
      PlanView.adjust_geometires
        (sigma, PlanView.set_start_point x_start y_start h_start built)
      = (res, (sigma', self')) ->
      nth_error (PlanView._adjusted_geometries self') 0 = Some G ->
      _Geometry.s G = 0 /\ _Geometry.x G = x_start /\ _Geometry.y G = y_start /\
      _Geometry.heading G = hd h_start (recorded_headings calls)).
Proof.
  cbv zeta.
  destruct (add_all_fields calls (PlanView.__init__ x0 y0 h0))
    as (Hx & Hy & Hh & Hs & Ha & _ & Ho).
  cbn in Hx, Hy, Hh, Hs, Ha, Ho.
  assert (Hhd : forall self h G,
    PlanView._overridden_headings self = recorded_headings calls ->
    PlanView.present_h self = h ->
    step_heading self 0 = Some (_Geometry.heading G) ->
    _Geometry.heading G = hd h (recorded_headings calls)).
  { intros self h G Hovr Hph. unfold step_heading. rewrite Hovr, Hph.
    destruct (recorded_headings calls) as [|o ovr]; cbn; congruence. }
  split; intros sigma' self' res G Hrun HG.
  - destruct (adjust_geometires_first _ _ _ _ _ G Hrun)
      as (Hs' & Hx' & Hy' & Hh').
    { rewrite Ha. exact HG. }
    rewrite Hs', Hx', Hy', Hs, Hx, Hy. repeat split.
    exact (Hhd _ _ _ Ho Hh Hh').
  - destruct (adjust_geometires_first _ _ _ _ _ G Hrun)
      as (Hs' & Hx' & Hy' & Hh').
    { cbn [PlanView.set_start_point PlanView._adjusted_geometries].
      rewrite Ha. exact HG. }
    cbn [PlanView.set_start_point PlanView.present_s PlanView.present_x
           PlanView.present_y] in Hs', Hx', Hy'.
    rewrite Hs', Hx', Hy', Hs. repeat split.
    refine (Hhd _ _ _ _ _ Hh'); [|reflexivity].
    cbn [PlanView.set_start_point PlanView._overridden_headings]. exact Ho.
Qed.

(** ** Heading overrides are used by position *)

(** With at least one override and fewer overrides than raw geometries, the
    loop stops with [IndexError] after as many geometries as there are
    overrides. *)
Lemma short_overrides_raise (sigma : store) (self : PlanView.t) :
  (0 < List.length (PlanView._overridden_headings self)
   < List.length (PlanView._raw_geometries self))%nat ->
  raw_settles sigma (PlanView._raw_geometries self) ->
  exists sigma1 self1,
    PlanView.adjust_geometires (sigma, self)
    = (Raise IndexError, (sigma1, self1)) /\
    List.length (PlanView._adjusted_geometries self1)
    = (List.length (PlanView._adjusted_geometries self)
       + List.length (PlanView._overridden_headings self))%nat.
Proof.
  intros Hshort Hready.
  set (n := List.length (PlanView._overridden_headings self)) in *.
  set (m := List.length (PlanView._raw_geometries self)) in *.
  destruct (adjust_loop_progress n 0 sigma self Hready) as
    (sigma1 & self1 & Hrun & _ & Hraw1 & Hovr1 & Hlen1).
  { fold m. lia. }
  { right. fold n. lia. }
  assert (Hstep : PlanView.adjust_step n (sigma1, self1)
                  = (Raise IndexError, (sigma1, self1))).
  { rewrite adjust_step_eq. unfold step_heading. rewrite Hovr1. fold n.
    destruct (Nat.ltb_spec 0 n) as [_|Hle]; [|lia].
    assert (E : nth_error (PlanView._overridden_headings self) n = None)
      by (apply nth_error_None; fold n; lia).
    rewrite E. reflexivity. }
  exists sigma1, self1. split; [|exact Hlen1].
  unfold PlanView.adjust_geometires, bind at 1, PlanView.self_.
  cbn [snd]. fold m.
  replace m with (n + (m - n))%nat by lia.
  rewrite seq_app, for_each_app, Hrun.
  destruct (m - n)%nat as [|k] eqn:Ek; [lia|].
  cbn [seq]. rewrite for_each_cons. cbn [Nat.add]. rewrite Hstep.
  reflexivity.
Qed.

(** The plan view records the truthy headings in the order of the calls,
    without the segments they were passed with.  If any was recorded,
    finalization gives the j-th recorded heading to the j-th segment,
    whichever call passed it; and if some but not all calls passed a truthy
    heading, and the segments can be evaluated, finalization raises
    [IndexError] after as many geometries as headings were recorded. *)
Theorem heading_overrides_by_position (calls : list (ref * value))
  (x0 y0 h0 : R) (sigma sigma' : store) (self' : PlanView.t)
  (res : result unit) :
  PlanView.adjust_geometires (sigma, add_all calls (PlanView.__init__ x0 y0 h0))
  = (res, (sigma', self')) ->
  PlanView._overridden_headings (add_all calls (PlanView.__init__ x0 y0 h0))
  = recorded_headings calls /\
  (recorded_headings calls <> [] ->
   forall j G,
     nth_error (PlanView._adjusted_geometries self') j = Some G ->
     nth_error (map fst calls) j = Some (_Geometry.geom_type G) /\
     nth_error (recorded_headings calls) j = Some (_Geometry.heading G)) /\
  (raw_ready sigma (map fst calls) ->
   (0 < List.length (recorded_headings calls) < List.length calls)%nat ->
   res = Raise IndexError /\
   List.length (PlanView._adjusted_geometries self')
   = List.length (recorded_headings calls)).
Proof.
  intros Hrun.
  destruct (add_all_fields calls (PlanView.__init__ x0 y0 h0))
    as (_ & _ & _ & _ & Ha & Hr & Ho).
  cbn in Ha, Hr, Ho.
  split; [exact Ho|]. split.
  - intros Hne j G HG.
    unfold PlanView.adjust_geometires in Hrun.
    unfold bind at 1, PlanView.self_ in Hrun. cbn [snd] in Hrun.
    destruct (adjust_loop_keeps _ 0 _ _ _ _ _ Hrun)
      as (_ & _ & _ & gs & Hadj & _ & _ & Hnth).
    rewrite Ha in Hadj. cbn in Hadj. rewrite Hadj in HG.
    destruct (Hnth j G HG) as (Hraw & Hovr & _).
    rewrite Hr in Hraw. rewrite Ho in Hovr. cbn in Hraw, Hovr.
    split; [exact Hraw|]. apply Hovr. exact Hne.
  - intros Hready Hshort.
    destruct (short_overrides_raise sigma
                (add_all calls (PlanView.__init__ x0 y0 h0)))
      as (sigma1 & self1 & Hrun1 & Hlen1).
    + rewrite Ho, Hr, length_map. exact Hshort.
    + apply raw_ready_settles. rewrite Hr. exact Hready.
    + rewrite Hrun1 in Hrun. injection Hrun as <- <- <-.
      split; [reflexivity|]. rewrite Hlen1, Ha, Ho. reflexivity.
Qed.

(** ** Serialization *)

Lemma same_inputs_get_element (str : py_str) (g g' : geom_type) :
  same_inputs g g' -> get_element str g' = get_element str g.
Proof.
  destruct g as [l|s|a|p], g' as [l'|s'|a'|p']; cbn [same_inputs];
    try contradiction.
  - intros ->. reflexivity.
  - intros ->. reflexivity.
  - intros H. cbn. unfold Arc.get_element, Arc.get_attributes.
    rewrite H. reflexivity.
  - intros <-. destruct p'; reflexivity.
Qed.

(** The element of a segment does not show whether the segment was
    evaluated: the fields an evaluation writes (an arc's angle and length,
    a ParamPoly3's length) are not serialized, so the element after any
    evaluation, successful or not, is the element before it. *)
Theorem get_element_after_evaluation (str : py_str) (x y h : R)
  (g : geom_type) :
  get_element str (snd (get_end_data x y h g)) = get_element str g.
Proof.
  rewrite get_end_data_eq.
  destruct (settle g) as [g'|e] eqn:Es; cbn [snd]; [|reflexivity].
  apply same_inputs_get_element, settle_same_inputs. exact Es.
Qed.

Lemma append_elements_eq (str : py_str) (sigma : store)
  (geoms : list _Geometry.t) (element : XmlElement) :
  (forall G, In G geoms ->
             nth_error sigma (_Geometry.geom_type G) <> None) ->
  PlanView.append_elements str element geoms sigma
  = (Ok (mkElement (ET.tag element) (ET.attrib element)
           (ET.children element ++ map (geometry_element str sigma) geoms)),
     sigma).
Proof.
  revert element. induction geoms as [|G geoms IH]; intros element Hin.
  - cbn. rewrite app_nil_r. destruct element; reflexivity.
  - cbn [PlanView.append_elements]. unfold bind at 1.
    unfold _Geometry.get_element, bind, read_ref, ret.
    pose proof (Hin G (or_introl eq_refl)) as HG.
    destruct (nth_error sigma (_Geometry.geom_type G)) as [g|] eqn:Eg;
      [|contradiction].
    rewrite IH by (intros G' H'; apply Hin; right; exact H').
    destruct element as [tag attrib children].
    assert (HGe : geometry_element str sigma G
                  = mkElement "geometry" (_Geometry.get_attributes str G)
                      [get_element str g])
      by (unfold geometry_element; rewrite Eg; reflexivity).
    cbn [map]. rewrite HGe.
    cbn. rewrite <- app_assoc. reflexivity.
Qed.

(** A plan view serializes its adjusted geometries only.  Before
    finalization the element is an empty "planView", whatever was added.
    After a successful finalization it has one "geometry" child per raw
    geometry, in order; child i carries the attributes of the i-th adjusted
    geometry and wraps the element of the i-th raw geometry, which is the
    same as before finalization.  Serializing changes nothing. *)
Theorem PlanView_get_element_children (str : py_str) (sigma : store)
  (self : PlanView.t) :
  PlanView._adjusted_geometries self = [] ->
  PlanView.get_element str (sigma, self)
  = (Ok (ET.Element "planView" []), (sigma, self)) /\
  forall sigma' self',
    PlanView.adjust_geometires (sigma, self) = (Ok tt, (sigma', self')) ->
    exists children,
      PlanView.get_element str (sigma', self')
      = (Ok (mkElement "planView" [] children), (sigma', self')) /\
      List.length children = List.length (PlanView._raw_geometries self) /\
      forall i r,
        nth_error (PlanView._raw_geometries self) i = Some r ->
        exists G g0,
          nth_error (PlanView._adjusted_geometries self') i = Some G /\
          _Geometry.geom_type G = r /\
          nth_error sigma r = Some g0 /\
          nth_error children i
          = Some (mkElement "geometry" (_Geometry.get_attributes str G)
                    [get_element str g0]).
Proof.
  intros Hnil. split.
  - unfold PlanView.get_element, bind, PlanView.self_, PlanView.in_store.
    cbn [fst snd]. rewrite Hnil. reflexivity.
  - intros sigma' self' Hrun.
    unfold PlanView.adjust_geometires in Hrun.
    unfold bind at 1, PlanView.self_ in Hrun. cbn [snd] in Hrun.
    destruct (adjust_loop_keeps _ 0 _ _ _ _ _ Hrun)
      as (_ & _ & Hk & gs & Hadj & Hok & _ & Hnth).
    rewrite Hnil in Hadj. cbn in Hadj. specialize (Hok eq_refl).
    assert (Hobj : forall j G, nth_error gs j = Some G ->
      exists g0 g', nth_error sigma (_Geometry.geom_type G) = Some g0 /\
                    nth_error sigma' (_Geometry.geom_type G) = Some g' /\
                    get_element str g' = get_element str g0).
    { intros j G HG. destruct (Hnth j G HG) as (_ & _ & g0 & H0).
      destruct (Forall2_nth_error_forth _ _ _ _ Hk H0) as (g' & H' & Hsame).
      exists g0, g'. repeat split; try assumption.
      apply same_inputs_get_element. exact Hsame. }
    exists (map (geometry_element str sigma') gs). split; [|split].
    + unfold PlanView.get_element, bind, PlanView.self_, PlanView.in_store.
      cbn [fst snd]. rewrite Hadj, append_elements_eq; [reflexivity|].
      intros G HG. destruct (In_nth_error _ _ HG) as [j Hj].
      destruct (Hobj j G Hj) as (g0 & g' & _ & H' & _). congruence.
    + rewrite length_map. exact Hok.
    + intros i r Hr.
      assert (Hlt : (i < List.length gs)%nat).
      { rewrite Hok. apply nth_error_Some. congruence. }
      destruct (nth_error gs i) as [G|] eqn:EG;
        [|apply nth_error_None in EG; lia].
      destruct (Hnth i G EG) as (Hraw & _). cbn in Hraw.
      assert (Href : _Geometry.geom_type G = r) by congruence.
      destruct (Hobj i G EG) as (g0 & g' & H0 & H' & Hel).
      exists G, g0. rewrite Hadj. split; [exact EG|]. split; [exact Href|].
      split; [rewrite <- Href; exact H0|].
      rewrite nth_error_map, EG. cbn [option_map].
      unfold geometry_element. rewrite H', Hel. reflexivity.
Qed.

(** ** A full turn *)


(** ** Finalizing twice continues the road *)

(** After a successful finalization of a plan view without adjusted
    geometries the loop can run again: the raw geometries evaluate, and the
    overrides, if any, cover them. *)
Lemma finalized_state (sigma sigma1 : store) (self self1 : PlanView.t) :
  Forall wf_geom sigma ->
  PlanView._adjusted_geometries self = [] ->
  PlanView.adjust_geometires (sigma, self) = (Ok tt, (sigma1, self1)) ->
  PlanView._raw_geometries self1 = PlanView._raw_geometries self /\
  PlanView._overridden_headings self1 = PlanView._overridden_headings self /\
  List.length (PlanView._adjusted_geometries self1)
  = List.length (PlanView._raw_geometries self) /\
  raw_settles sigma1 (PlanView._raw_geometries self1) /\
  (PlanView._overridden_headings self1 = [] \/
   (0 + List.length (PlanView._raw_geometries self1)
    <= List.length (PlanView._overridden_headings self1))%nat).
Proof.
  intros Hwf Hnil Hrun.
  destruct (adjust_geometires_chain _ _ _ _ Hwf Hrun)
    as [Hovr Hraw Hwf1 (gs1 & Hadj1 & Hlen1 & Hlk1 & _ & Hnth1)].
  cbn [fst snd] in *. rewrite Hnil in Hadj1. cbn in Hadj1. rewrite Hadj1.
  split; [exact Hraw|]. split; [exact Hovr|]. split; [exact Hlen1|]. split.
  - intros r Hin. rewrite Hraw in Hin.
    destruct (In_nth_error _ _ Hin) as [j Hj].
    assert (Hlt : (j < List.length gs1)%nat).
    { rewrite Hlen1. apply nth_error_Some. congruence. }
    destruct (nth_error gs1 j) as [G|] eqn:EG;
      [|apply nth_error_None in EG; lia].
    destruct (Hnth1 j G EG) as [Href _].
    assert (r = _Geometry.geom_type G) by congruence. subst r.
    destruct (linked_nth _ _ _ _ _ _ Hlk1 EG) as [next L].
    eapply link_can_settle; eassumption.
  - rewrite Hovr, Hraw.
    destruct (PlanView._overridden_headings self) as [|o ovr] eqn:Eo;
      [left; reflexivity|right].
    destruct (List.length (PlanView._raw_geometries self)) as [|m] eqn:En;
      [cbn; lia|].
    destruct (nth_error gs1 m) as [G|] eqn:EG;
      [|apply nth_error_None in EG; lia].
    destruct (Hnth1 m G EG) as [_ Hh].
    assert (Hsome : nth_error (o :: ovr) m <> None)
      by (rewrite Hh; discriminate).
    apply nth_error_Some in Hsome. cbn in *. lia.
Qed.

(** Finalizing a finalized plan view again does not start over: the second
    run succeeds, and the first of the geometries it appends starts where
    the road ended, at the end position and at the arc length that was the
    total length; its heading is the end heading of the road or, if heading
    overrides were recorded, the first override again. *)
Theorem second_finalization_continues
  (sigma sigma1 : store) (self self1 : PlanView.t) :
  Forall wf_geom sigma ->
  PlanView._adjusted_geometries self = [] ->
  PlanView.adjust_geometires (sigma, self) = (Ok tt, (sigma1, self1)) ->
  exists sigma2 self2,
    PlanView.adjust_geometires (sigma1, self1) = (Ok tt, (sigma2, self2)) /\
    forall G,
      nth_error (PlanView._adjusted_geometries self2)
        (List.length (PlanView._raw_geometries self)) = Some G ->
      _Geometry.s G = PlanView.get_total_length self1 /\
      _Geometry.x G = PlanView.present_x self1 /\
      _Geometry.y G = PlanView.present_y self1 /\
      _Geometry.heading G
      = hd (PlanView.present_h self1) (PlanView._overridden_headings self).
Proof.
  intros Hwf Hnil Hrun.
  destruct (finalized_state _ _ _ _ Hwf Hnil Hrun)
    as (Hraw & Hovr & Hlen1 & Hready & Hcover).
  destruct (adjust_loop_progress (List.length (PlanView._raw_geometries self1))
              0 sigma1 self1 Hready (Nat.le_refl _) Hcover)
    as (sigma2 & self2 & Hloop & _).
  assert (Hrun2 : PlanView.adjust_geometires (sigma1, self1)
                  = (Ok tt, (sigma2, self2))).
  { unfold PlanView.adjust_geometires, bind at 1, PlanView.self_.
    cbn [snd]. exact Hloop. }
  exists sigma2, self2. split; [exact Hrun2|].
  intros G HG. rewrite <- Hlen1 in HG.
  destruct (adjust_geometires_first _ _ _ _ _ G Hrun2 HG)
    as (H1 & H2 & H3 & H4).
  repeat split; try assumption.
  unfold step_heading in H4. rewrite Hovr in H4.
  destruct (PlanView._overridden_headings self) as [|o ovr]; cbn in *;
    congruence.
Qed.

(** ** The further theorems at concrete inputs *)

(** [normalized_length_nonneg] on the parabola. *)
Lemma normalized_length_nonneg_witness :
  exists x' y' h' l self',
    ParamPoly3.get_end_data 0 0 0 parabola = (Ok (x', y', h', Some l), self') /\
    ParamPoly3.length self' = Some l /\
    l = integral (ParamPoly3._integrand parabola) 0 1 /\
    0 <= l.
Proof.
  exact (normalized_length_nonneg parabola 0 0 0 eq_refl).
Defined.

(** [linear_poly_length] on the straight segment with the legs 3 and 4. *)
Lemma linear_poly_length_witness :
  exists x' y' h' l self',
    ParamPoly3.get_end_data 0 0 0 straight_poly = (Ok (x', y', h', l), self') /\
    l = Some (sqrt (3 ^ 2 + 4 ^ 2)) /\
    (x' - (0 + (1 * cos 0 - 2 * sin 0))) ^ 2
    + (y' - (0 + (1 * sin 0 + 2 * cos 0))) ^ 2 = 3 ^ 2 + 4 ^ 2.
Proof.
  destruct (ParamPoly3.get_end_data 0 0 0 straight_poly)
    as [[[[[x' y'] h'] l]|e] self'] eqn:E.
  - exists x', y', h', l, self'. split; [reflexivity|].
    exact (linear_poly_length straight_poly self' 0 0 0 x' y' h' l
             eq_refl eq_refl eq_refl eq_refl eq_refl E).
  - rewrite ParamPoly3_get_end_data_eq in E. discriminate E.
Defined.

(** [Spiral_end_heading] on a clothoid of length 10 that reaches the
    curvature 1/10. *)
Lemma Spiral_end_heading_witness :
  exists x' y' h' l self',
    Spiral.get_end_data 0 0 0 clothoid = (Ok (x', y', h', l), self') /\
    h' = 0 + (0 + 1 / 10) / 2 * 10 /\
    l = Some 10 /\
    10 <> 0 /\
    self' = clothoid.
Proof.
  destruct (Spiral.get_end_data 0 0 0 clothoid)
    as [[[[[x' y'] h'] l]|e] self'] eqn:E.
  - exists x', y', h', l, self'. split; [reflexivity|].
    exact (Spiral_end_heading clothoid self' 0 0 0 x' y' h' l E).
  - rewrite Spiral_get_end_data_eq in E.
    destruct (Req_dec_T (Spiral.length clothoid) 0) as [H|H];
      [cbn in H; lra|discriminate E].
Defined.


(** [heading_overrides_by_position] on the road with a heading passed with
    its second segment only: the heading is given to the first segment, and
    finalization raises after it. *)
Lemma heading_overrides_by_position_witness :
  exists sigma' self',
    PlanView.adjust_geometires
      (road_store, add_all late_override (PlanView.__init__ 0 0 0))
    = (Raise IndexError, (sigma', self')) /\
    recorded_headings late_override = [1] /\
    List.length (PlanView._adjusted_geometries self') = 1%nat /\
    forall G, nth_error (PlanView._adjusted_geometries self') 0 = Some G ->
              _Geometry.geom_type G = 0%nat /\ _Geometry.heading G = 1.
Proof.
  assert (Hrec : recorded_headings late_override = [1]).
  { unfold recorded_headings, late_override. cbn [flat_map snd app].
    rewrite (truthy_true 1 R1_neq_R0). reflexivity. }
  destruct (PlanView.adjust_geometires
              (road_store, add_all late_override (PlanView.__init__ 0 0 0)))
    as [res [sigma' self']] eqn:E.
  destruct (heading_overrides_by_position late_override 0 0 0
              road_store sigma' self' res E) as (_ & Hpos & Hfail).
  destruct Hfail as [-> Hlen].
  { apply raw_ready_settles. exact road_settles. }
  { rewrite Hrec. cbn. lia. }
  exists sigma', self'. split; [reflexivity|]. split; [exact Hrec|].
  split; [rewrite Hlen, Hrec; reflexivity|].
  intros G HG.
  assert (Hne : recorded_headings late_override <> [])
    by (rewrite Hrec; discriminate).
  destruct (Hpos Hne 0%nat G HG) as [H1 H2].
  rewrite Hrec in H2. cbn in H1, H2. split; congruence.
Defined.

(** [PlanView_get_element_children] on the road of a line and an arc. *)
Lemma PlanView_get_element_children_witness :
  exists sigma' self' children,
    PlanView.adjust_geometires (road_store, road) = (Ok tt, (sigma', self')) /\
    PlanView.get_element zero_str (road_store, road)
    = (Ok (ET.Element "planView" []), (road_store, road)) /\
    PlanView.get_element zero_str (sigma', self')
    = (Ok (mkElement "planView" [] children), (sigma', self')) /\
    List.length children = 2%nat.
Proof.
  destruct road_finalized as (sigma' & self' & Hrun & _).
  destruct (PlanView_get_element_children zero_str road_store road eq_refl)
    as [Hbefore Hafter].
  destruct (Hafter sigma' self' Hrun) as (children & Hel & Hlen & _).
  exists sigma', self', children. repeat split; assumption.
Defined.


(** [second_finalization_continues] on the road of a line and an arc. *)
Lemma second_finalization_continues_witness :
  exists sigma1 self1 sigma2 self2,
    PlanView.adjust_geometires (road_store, road) = (Ok tt, (sigma1, self1)) /\
    PlanView.adjust_geometires (sigma1, self1) = (Ok tt, (sigma2, self2)) /\
    forall G,
      nth_error (PlanView._adjusted_geometries self2) 2 = Some G ->
      _Geometry.s G = PlanView.get_total_length self1 /\
      _Geometry.x G = PlanView.present_x self1 /\
      _Geometry.y G = PlanView.present_y self1 /\
      _Geometry.heading G = PlanView.present_h self1.
Proof.
  destruct road_finalized as (sigma1 & self1 & Hrun & _).
  destruct (second_finalization_continues road_store sigma1 road self1
              road_store_wf eq_refl Hrun)
    as (sigma2 & self2 & Hrun2 & Hfirst).
  exists sigma1, self1, sigma2, self2.
  split; [exact Hrun|]. split; [exact Hrun2|]. exact Hfirst.
Defined.

(** * The code in binary64 *)

Module Binary64.
Import PrimFloat.
Local Open Scope float_scope.

(** Evaluating an arc again is not evaluating it for the first time:
    [Arc(0.7, length=7.7)] returns the heading 5.39 and the length
    7.699999999999999 and has them written on it; evaluated again from the
    same pose it returns 5.389999999999999 and 7.699999999999998 and is
    written to again.  The angle is derived anew from the length that the
    last evaluation derived from the angle. *)
#[warnings="-inexact-float"]
Lemma Arc_reevaluation_drifts (np : B64.numpy) :
  let first := B64.Arc.get_end_data np 0 0 0 Drift.arc in
  let second := B64.Arc.get_end_data np 0 0 0 (snd first) in
  Drift.heading_length (fst first)
  = Some (5.3899999999999997, Some 7.6999999999999993) /\
  snd first
  = {| B64.Arc.length := Some 7.6999999999999993;
       B64.Arc.angle := Some 5.3899999999999997;
       B64.Arc.curvature := 0.7 |} /\
  Drift.heading_length (fst second)
  = Some (5.3899999999999988, Some 7.6999999999999984) /\
  snd second
  = {| B64.Arc.length := Some 7.6999999999999984;
       B64.Arc.angle := Some 5.3899999999999988;
       B64.Arc.curvature := 0.7 |} /\
  (7.6999999999999993 =? 7.6999999999999984) = false.
Proof.
  cbv zeta. vm_compute. repeat split.
Qed.

(** C5: the code does not keep the arc-length chain.  [_Geometry.__init__]
    evaluates the segment and caches the length, the loop evaluates it again
    and adds the length returned then; an arc returns a different length the
    second time.  For the plan view of [Arc(0.03, length=12.9)] and
    [Line(1)]: the first geometry has s = 0 and length 12.900000000000002,
    the second starts at s = 12.900000000000004, and the total length is
    13.900000000000004 where the lengths sum to 13.900000000000002.  For
    [Arc(0.7, length=7.7)] and [Line(1)]: the first geometry has the length
    7.699999999999999 and the second starts at 7.699999999999998. *)
#[warnings="-inexact-float"]
Theorem arc_length_chain_binary64 (np : B64.numpy) :
  let gs a := B64.PlanView._adjusted_geometries (snd (Drift.finalized np a)) in
  (Drift.outcome np Drift.wide_arc = Ok tt /\
   map B64._Geometry.s (gs Drift.wide_arc) = [0; 12.900000000000004] /\
   map B64._Geometry.length (gs Drift.wide_arc)
   = [Some 12.900000000000002; Some 1] /\
   (0 + 12.900000000000002 =? 12.900000000000004) = false /\
   B64.PlanView.get_total_length (snd (Drift.finalized np Drift.wide_arc))
   = 13.900000000000004 /\
   (12.900000000000002 + 1 =? 13.900000000000004) = false) /\
  (Drift.outcome np Drift.arc = Ok tt /\
   map B64._Geometry.s (gs Drift.arc) = [0; 7.6999999999999984] /\
   map B64._Geometry.length (gs Drift.arc)
   = [Some 7.6999999999999993; Some 1] /\
   (0 + 7.6999999999999993 =? 7.6999999999999984) = false).
Proof.
  cbv zeta. vm_compute. repeat split.
Qed.

(** The end pose of an arc, read after finalization, is not the start pose of
    the next geometry: reading it evaluates the arc a third time.  For the
    plan view of [Arc(0.03, length=12.9)] and [Line(1)] the second geometry
    starts with the heading 0.38700000000000007, and [get_end_data] of the
    first returns the heading 0.38700000000000012 and changes the arc. *)
#[warnings="-inexact-float"]
Lemma end_pose_drifts (np : B64.numpy) :
  let w := Drift.finalized np Drift.wide_arc in
  let gs := B64.PlanView._adjusted_geometries (snd w) in
  map B64._Geometry.heading gs = [0; 0.38700000000000007] /\
  exists G,
    nth_error gs 0 = Some G /\
    Drift.heading_length (fst (B64._Geometry.get_end_data np G (fst w)))
    = Some (0.38700000000000012, Some 12.900000000000006) /\
    (0.38700000000000012 =? 0.38700000000000007) = false /\
    nth_error (fst w) 0
    = Some (B64.GArc {| B64.Arc.length := Some 12.900000000000004;
                        B64.Arc.angle := Some 0.38700000000000007;
                        B64.Arc.curvature := 0.03 |}) /\
    nth_error (snd (B64._Geometry.get_end_data np G (fst w))) 0
    = Some (B64.GArc {| B64.Arc.length := Some 12.900000000000006;
                        B64.Arc.angle := Some 0.38700000000000012;
                        B64.Arc.curvature := 0.03 |}).
Proof.
  cbv zeta.
  destruct (nth_error (B64.PlanView._adjusted_geometries
                         (snd (Drift.finalized np Drift.wide_arc))) 0)
    as [G|] eqn:EG; [|vm_compute in EG; discriminate].
  split; [vm_compute; reflexivity|].
  exists G. split; [reflexivity|].
  vm_compute in EG. injection EG as <-.
  vm_compute. repeat split.
Qed.
End Binary64.
